(** * Vehicle inspection manager: data-access handlers

    A shallow embedding of the server handlers (server/src/handlers/*.ts)
    over an explicit relational store, and the properties of the
    specification that concern them.

    Conventions of the embedding.
    - A table is the list of its rows in scan order; a [select] without
      [orderBy] returns the matching rows in that order.  An [insert]
      appends its rows; an [update] leaves the rows it does not match where
      they are and puts the new versions of the rows it rewrites after them.
    - A [Date] is a number of milliseconds; the reading of the clock taken
      during a call ([new Date()] in the handler, [defaultNow()] in the
      store) is the argument [now] of the handler.
    - An identifier is an integer ([Z]).
    - A handler is a computation in the monad [M]: it receives the store and
      returns a value or a thrown error, together with the store it leaves.
      The [try { ... } catch (error) { console.error(...); throw error; }]
      frame around every handler rethrows the error as it is and is the
      identity on this result. *)

From Stdlib Require Import ZArith List String Ascii Bool Lia.
From Stdlib Require Import Permutation Sorted.
From Stdlib Require Import Decimal DecimalString DecimalNat.
Import ListNotations.

Open Scope Z_scope.
Open Scope string_scope.

(** ** Values *)

Definition Date := Z.

(** An optional, nullable property of a JavaScript input object:
    missing ([undefined]), [null], or a value. *)
Inductive field (A : Type) : Type :=
| Undefined
| Null
| Value (a : A).
Arguments Undefined {A}.
Arguments Null {A}.
Arguments Value {A} a.

(** JavaScript truthiness of a string: every string but the empty one. *)
Definition truthy (s : string) : bool :=
  match s with
  | EmptyString => false
  | String _ _ => true
  end.

(** Truthiness of an optional string property ([undefined] is falsy). *)
Definition truthy_opt (o : option string) : bool :=
  match o with
  | Some s => truthy s
  | None => false
  end.

(** [column === x] and [eq(column, x)] for an optional property [x]. *)
Definition strict_eq (actual : string) (x : option string) : bool :=
  match x with
  | Some s => actual =? s
  | None => false
  end.

(** [`${x}`] for an optional string property. *)
Definition show_opt (x : option string) : string :=
  match x with
  | Some s => s
  | None => "undefined"
  end.

Definition dquote : string := String (ascii_of_nat 34) EmptyString.

(** [x || null] on an optional nullable string. *)
Definition or_null (x : field string) : option string :=
  match x with
  | Value s => if truthy s then Some s else None
  | Null | Undefined => None
  end.

(** [`${n}`] for an integer and for an array length. *)
Definition show_Z (z : Z) : string := NilZero.string_of_int (Z.to_int z).
Definition show_nat (n : nat) : string := NilZero.string_of_uint (Nat.to_uint n).

Inductive ItemStatus : Type := pass | fail | not_applicable.

(** ** Rows *)

Module Vehicle.
Record t : Type := mk {
  id : Z;
  make : string;
  model : string;
  year : Z;
  vin : string;
  license_plate : string;
  created_at : Date;
  updated_at : Date
}.
End Vehicle.

Module Inspector.
Record t : Type := mk {
  id : Z;
  name : string;
  employee_id : string;
  created_at : Date;
  updated_at : Date
}.
End Inspector.

Module Inspection.
Record t : Type := mk {
  id : Z;
  vehicle_id : Z;
  inspector_id : Z;
  inspection_date : Date;
  completed : bool;
  notes : option string;
  created_at : Date;
  updated_at : Date
}.
End Inspection.

Module InspectionItem.
Record t : Type := mk {
  id : Z;
  inspection_id : Z;
  item_name : string;
  status : ItemStatus;
  comments : option string;
  created_at : Date;
  updated_at : Date
}.
End InspectionItem.

Module InspectionWithDetails.
Record t : Type := mk {
  id : Z;
  vehicle_id : Z;
  inspector_id : Z;
  inspection_date : Date;
  completed : bool;
  notes : option string;
  created_at : Date;
  updated_at : Date;
  vehicle : Vehicle.t;
  inspector : Inspector.t;
  items : list InspectionItem.t
}.
End InspectionWithDetails.

Record InspectionReport : Type := {
  total_inspections : Z;
  completed_inspections : Z;
  pending_inspections : Z;
  recent_inspections : list InspectionWithDetails.t
}.

(** ** Inputs *)

Record CreateVehicleInput : Type := {
  cv_make : string;
  cv_model : string;
  cv_year : Z;
  cv_vin : string;
  cv_license_plate : string
}.

Record UpdateVehicleInput : Type := {
  uv_id : Z;
  uv_make : option string;
  uv_model : option string;
  uv_year : option Z;
  uv_vin : option string;
  uv_license_plate : option string
}.

Record CreateInspectorInput : Type := {
  cp_name : string;
  cp_employee_id : string
}.

Record UpdateInspectorInput : Type := {
  up_id : Z;
  up_name : option string;
  up_employee_id : option string
}.

(** [ci_completed] stands for a [completed] property a caller may put in
    the object; the handler never reads it. *)
Record CreateInspectionInput : Type := {
  ci_vehicle_id : Z;
  ci_inspector_id : Z;
  ci_inspection_date : Date;
  ci_completed : option bool;
  ci_notes : field string
}.

Record UpdateInspectionInput : Type := {
  ui_id : Z;
  ui_completed : option bool;
  ui_notes : field string
}.

Record ItemInput : Type := {
  ii_item_name : string;
  ii_status : ItemStatus;
  ii_comments : field string
}.

Record CreateInspectionItemsInput : Type := {
  cii_inspection_id : Z;
  cii_items : list ItemInput
}.

Record UpdateInspectionItemInput : Type := {
  uii_id : Z;
  uii_status : option ItemStatus;
  uii_comments : field string
}.

(** ** The store *)

Record State : Type := {
  vehicles : list Vehicle.t;
  inspectors : list Inspector.t;
  inspections : list Inspection.t;
  inspection_items : list InspectionItem.t;
  vehicles_seq : Z;
  inspectors_seq : Z;
  inspections_seq : Z;
  inspection_items_seq : Z
}.

Definition with_vehicles (st : State) (rows : list Vehicle.t) (seq : Z) : State :=
  {| vehicles := rows; inspectors := inspectors st;
     inspections := inspections st; inspection_items := inspection_items st;
     vehicles_seq := seq; inspectors_seq := inspectors_seq st;
     inspections_seq := inspections_seq st;
     inspection_items_seq := inspection_items_seq st |}.

Definition with_inspectors (st : State) (rows : list Inspector.t) (seq : Z) : State :=
  {| vehicles := vehicles st; inspectors := rows;
     inspections := inspections st; inspection_items := inspection_items st;
     vehicles_seq := vehicles_seq st; inspectors_seq := seq;
     inspections_seq := inspections_seq st;
     inspection_items_seq := inspection_items_seq st |}.

Definition with_inspections (st : State) (rows : list Inspection.t) (seq : Z) : State :=
  {| vehicles := vehicles st; inspectors := inspectors st;
     inspections := rows; inspection_items := inspection_items st;
     vehicles_seq := vehicles_seq st; inspectors_seq := inspectors_seq st;
     inspections_seq := seq;
     inspection_items_seq := inspection_items_seq st |}.

Definition with_inspection_items (st : State) (rows : list InspectionItem.t) (seq : Z) : State :=
  {| vehicles := vehicles st; inspectors := inspectors st;
     inspections := inspections st; inspection_items := rows;
     vehicles_seq := vehicles_seq st; inspectors_seq := inspectors_seq st;
     inspections_seq := inspections_seq st;
     inspection_items_seq := seq |}.

(** ** Errors and the handler monad *)

(** The errors a handler throws with [new Error(message)], by the class the
    specification gives them, and the error the storage layer raises by
    itself when a statement violates a constraint of the schema. *)
Inductive Error : Type :=
| NotFound (message : string)
| Conflict (message : string)
| ReferentialIntegrity (message : string)
| ConstraintViolation (constraint : string).

Inductive result (A : Type) : Type :=
| Ok (a : A)
| Throw (e : Error).
Arguments Ok {A} a.
Arguments Throw {A} e.

Definition M (A : Type) : Type := State -> result A * State.

Definition ret {A} (a : A) : M A := fun st => (Ok a, st).

Definition throw {A} (e : Error) : M A := fun st => (Throw e, st).

Definition bind {A B} (m : M A) (f : A -> M B) : M B :=
  fun st =>
    match m st with
    | (Ok a, st') => f a st'
    | (Throw e, st') => (Throw e, st')
    end.

Notation "x <- m ;; k" := (bind m (fun x => k))
  (at level 61, m at next level, right associativity).
Notation "m ;;; k" := (bind m (fun _ => k))
  (at level 61, right associativity).

(** A handler leaves the store as it found it whenever it throws. *)
Definition preserves_state_on_error {A} (h : M A) : Prop :=
  forall st e, fst (h st) = Throw e -> snd (h st) = st.

(** ** Statements of the query builder *)

(** [orderBy]: rows equal under the order keep their scan order. *)
Fixpoint insert_sorted {A} (le : A -> A -> bool) (x : A) (l : list A) : list A :=
  match l with
  | [] => [x]
  | y :: l' => if le x y then x :: l else y :: insert_sorted le x l'
  end.

Definition order_by {A} (le : A -> A -> bool) (rows : list A) : list A :=
  fold_right (insert_sorted le) [] rows.

(** [array.length === 0] *)
Definition is_empty {A} (l : list A) : bool :=
  match l with
  | [] => true
  | _ :: _ => false
  end.

(** The objects handed to [.set(...)]: a property that was not assigned is
    [None] (or [Undefined]) and its column is left alone. *)
Record VehicleUpdate : Type := {
  vu_make : option string;
  vu_model : option string;
  vu_year : option Z;
  vu_vin : option string;
  vu_license_plate : option string;
  vu_updated_at : Date
}.

Record InspectorUpdate : Type := {
  pu_name : option string;
  pu_employee_id : option string;
  pu_updated_at : Date
}.

Record InspectionUpdate : Type := {
  iu_completed : option bool;
  iu_notes : field string;
  iu_updated_at : Date
}.

Record InspectionItemUpdate : Type := {
  tu_status : option ItemStatus;
  tu_comments : field string;
  tu_updated_at : Date
}.

Definition assign {A} (new : option A) (old : A) : A :=
  match new with
  | Some a => a
  | None => old
  end.

Definition assign_nullable {A} (new : field A) (old : option A) : option A :=
  match new with
  | Undefined => old
  | Null => None
  | Value a => Some a
  end.

Definition set_vehicle (u : VehicleUpdate) (v : Vehicle.t) : Vehicle.t :=
  Vehicle.mk (Vehicle.id v)
    (assign (vu_make u) (Vehicle.make v))
    (assign (vu_model u) (Vehicle.model v))
    (assign (vu_year u) (Vehicle.year v))
    (assign (vu_vin u) (Vehicle.vin v))
    (assign (vu_license_plate u) (Vehicle.license_plate v))
    (Vehicle.created_at v)
    (vu_updated_at u).

Definition set_inspector (u : InspectorUpdate) (p : Inspector.t) : Inspector.t :=
  Inspector.mk (Inspector.id p)
    (assign (pu_name u) (Inspector.name p))
    (assign (pu_employee_id u) (Inspector.employee_id p))
    (Inspector.created_at p)
    (pu_updated_at u).

Definition set_inspection (u : InspectionUpdate) (i : Inspection.t) : Inspection.t :=
  Inspection.mk (Inspection.id i) (Inspection.vehicle_id i)
    (Inspection.inspector_id i) (Inspection.inspection_date i)
    (assign (iu_completed u) (Inspection.completed i))
    (assign_nullable (iu_notes u) (Inspection.notes i))
    (Inspection.created_at i)
    (iu_updated_at u).

Definition set_inspection_item (u : InspectionItemUpdate) (t : InspectionItem.t)
  : InspectionItem.t :=
  InspectionItem.mk (InspectionItem.id t) (InspectionItem.inspection_id t)
    (InspectionItem.item_name t)
    (assign (tu_status u) (InspectionItem.status t))
    (assign_nullable (tu_comments u) (InspectionItem.comments t))
    (InspectionItem.created_at t)
    (tu_updated_at u).

(** [UPDATE table SET ... WHERE cond]: the new rows of the table, in the
    order a later scan reads them.  The store writes a new version of every
    row it updates, so the rows that do not match keep their places and the
    rewritten rows follow them. *)
Definition update_rows {A} (cond : A -> bool) (set : A -> A) (rows : list A) : list A :=
  (filter (fun r => negb (cond r)) rows ++ map set (filter cond rows))%list.

(** Rows of [others] that hold the VIN, or the plate, of [r]. *)
Definition vin_taken (r : Vehicle.t) (others : list Vehicle.t) : bool :=
  existsb (fun v => Vehicle.vin v =? Vehicle.vin r) others.

Definition license_plate_taken (r : Vehicle.t) (others : list Vehicle.t) : bool :=
  existsb (fun v => Vehicle.license_plate v =? Vehicle.license_plate r) others.

Definition employee_id_taken (r : Inspector.t) (others : list Inspector.t) : bool :=
  existsb (fun p => Inspector.employee_id p =? Inspector.employee_id r) others.

Section Storage.

(** Modelled from the spec: server/src/db/schema.ts is not among the
    sources. The specification lists unique constraints on vehicles.vin,
    vehicles.license_plate and inspectors.employee_id, and says the columns
    "are expected to" carry them. The store is parametric in whether it
    enforces them: with [unique_constraints = true] a statement that would
    leave two rows with the same key raises [ConstraintViolation] and
    writes no row; with [false] the statement is carried out. *)
Variable unique_constraints : bool.

(** The order of the text columns under the collation of the database,
    which the sources do not fix: [collation_le a b] holds when [a] sorts
    no later than [b]. *)
Variable collation_le : string -> string -> bool.

Definition select_vehicles (cond : Vehicle.t -> bool) : M (list Vehicle.t) :=
  fun st => (Ok (filter cond (vehicles st)), st).

Definition select_inspectors (cond : Inspector.t -> bool) : M (list Inspector.t) :=
  fun st => (Ok (filter cond (inspectors st)), st).

Definition select_inspections (cond : Inspection.t -> bool) : M (list Inspection.t) :=
  fun st => (Ok (filter cond (inspections st)), st).

Definition select_inspection_items (cond : InspectionItem.t -> bool)
  : M (list InspectionItem.t) :=
  fun st => (Ok (filter cond (inspection_items st)), st).

(** [insert(...).values(...).returning()]. The identifier comes from the
    table's sequence and both timestamps from [defaultNow()]. A sequence
    value drawn by a statement that then fails is not given back. *)
Definition insert_vehicle (make model : string) (year : Z) (vin license_plate : string)
    (now : Date) : M (list Vehicle.t) :=
  fun st =>
    let row := Vehicle.mk (vehicles_seq st) make model year vin license_plate now now in
    if unique_constraints && vin_taken row (vehicles st) then
      (Throw (ConstraintViolation "vehicles_vin_unique"),
       with_vehicles st (vehicles st) (vehicles_seq st + 1))
    else if unique_constraints && license_plate_taken row (vehicles st) then
      (Throw (ConstraintViolation "vehicles_license_plate_unique"),
       with_vehicles st (vehicles st) (vehicles_seq st + 1))
    else
      (Ok [row], with_vehicles st (vehicles st ++ [row]) (vehicles_seq st + 1)).

Definition insert_inspector (name employee_id : string) (now : Date)
  : M (list Inspector.t) :=
  fun st =>
    let row := Inspector.mk (inspectors_seq st) name employee_id now now in
    if unique_constraints && employee_id_taken row (inspectors st) then
      (Throw (ConstraintViolation "inspectors_employee_id_unique"),
       with_inspectors st (inspectors st) (inspectors_seq st + 1))
    else
      (Ok [row], with_inspectors st (inspectors st ++ [row]) (inspectors_seq st + 1)).

Definition insert_inspection (vehicle_id inspector_id : Z) (inspection_date : Date)
    (completed : bool) (notes : option string) (now : Date) : M (list Inspection.t) :=
  fun st =>
    let row := Inspection.mk (inspections_seq st) vehicle_id inspector_id
                 inspection_date completed notes now now in
    (Ok [row], with_inspections st (inspections st ++ [row]) (inspections_seq st + 1)).

(** The values of one row of a bulk insert into inspection_items. *)
Record ItemValues : Type := {
  iv_inspection_id : Z;
  iv_item_name : string;
  iv_status : ItemStatus;
  iv_comments : option string
}.

Fixpoint number_items (seq : Z) (now : Date) (values : list ItemValues)
  : list InspectionItem.t :=
  match values with
  | [] => []
  | v :: values' =>
      InspectionItem.mk seq (iv_inspection_id v) (iv_item_name v) (iv_status v)
        (iv_comments v) now now
      :: number_items (seq + 1) now values'
  end.

Definition insert_inspection_items (values : list ItemValues) (now : Date)
  : M (list InspectionItem.t) :=
  fun st =>
    let rows := number_items (inspection_items_seq st) now values in
    (Ok rows,
     with_inspection_items st (inspection_items st ++ rows)
       (inspection_items_seq st + Z.of_nat (List.length values))).

(** [update(...).set(...).where(...).returning()] *)
Definition update_vehicles (cond : Vehicle.t -> bool) (u : VehicleUpdate)
  : M (list Vehicle.t) :=
  fun st =>
    let written := map (set_vehicle u) (filter cond (vehicles st)) in
    let kept := filter (fun v => negb (cond v)) (vehicles st) in
    if unique_constraints && existsb (fun r => vin_taken r kept) written then
      (Throw (ConstraintViolation "vehicles_vin_unique"), st)
    else if unique_constraints && existsb (fun r => license_plate_taken r kept) written then
      (Throw (ConstraintViolation "vehicles_license_plate_unique"), st)
    else
      (Ok written,
       with_vehicles st (update_rows cond (set_vehicle u) (vehicles st)) (vehicles_seq st)).

Definition update_inspectors (cond : Inspector.t -> bool) (u : InspectorUpdate)
  : M (list Inspector.t) :=
  fun st =>
    let written := map (set_inspector u) (filter cond (inspectors st)) in
    let kept := filter (fun p => negb (cond p)) (inspectors st) in
    if unique_constraints && existsb (fun r => employee_id_taken r kept) written then
      (Throw (ConstraintViolation "inspectors_employee_id_unique"), st)
    else
      (Ok written,
       with_inspectors st (update_rows cond (set_inspector u) (inspectors st))
         (inspectors_seq st)).

Definition update_inspections (cond : Inspection.t -> bool) (u : InspectionUpdate)
  : M (list Inspection.t) :=
  fun st =>
    (Ok (map (set_inspection u) (filter cond (inspections st))),
     with_inspections st (update_rows cond (set_inspection u) (inspections st))
       (inspections_seq st)).

Definition update_inspection_items (cond : InspectionItem.t -> bool)
    (u : InspectionItemUpdate) : M (list InspectionItem.t) :=
  fun st =>
    (Ok (map (set_inspection_item u) (filter cond (inspection_items st))),
     with_inspection_items st
       (update_rows cond (set_inspection_item u) (inspection_items st))
       (inspection_items_seq st)).

(** [delete(vehiclesTable).where(...)]. Modelled from the spec: the
    foreign keys of db/schema.ts (absent) cascade the deletion of a vehicle
    to its inspections, and of an inspection to its items. *)
Definition delete_vehicles (cond : Vehicle.t -> bool) : M unit :=
  fun st =>
    let gone := map Vehicle.id (filter cond (vehicles st)) in
    let orphan (i : Inspection.t) :=
      existsb (Z.eqb (Inspection.vehicle_id i)) gone in
    let gone_inspections := map Inspection.id (filter orphan (inspections st)) in
    let orphan_item (t : InspectionItem.t) :=
      existsb (Z.eqb (InspectionItem.inspection_id t)) gone_inspections in
    (Ok tt,
     {| vehicles := filter (fun v => negb (cond v)) (vehicles st);
        inspectors := inspectors st;
        inspections := filter (fun i => negb (orphan i)) (inspections st);
        inspection_items :=
          filter (fun t => negb (orphan_item t)) (inspection_items st);
        vehicles_seq := vehicles_seq st;
        inspectors_seq := inspectors_seq st;
        inspections_seq := inspections_seq st;
        inspection_items_seq := inspection_items_seq st |}).

Definition delete_inspectors (cond : Inspector.t -> bool) : M unit :=
  fun st =>
    (Ok tt,
     with_inspectors st (filter (fun p => negb (cond p)) (inspectors st))
       (inspectors_seq st)).

(** [select({ count: count() })]: one row holding the number of rows. *)
Definition count_inspections (cond : Inspection.t -> bool) : M (list Z) :=
  fun st => (Ok [Z.of_nat (List.length (filter cond (inspections st)))], st).

(** [from(inspections).innerJoin(vehicles, ...).innerJoin(inspectors, ...)] *)
Definition join_inspections (st : State)
  : list (Inspection.t * Vehicle.t * Inspector.t) :=
  flat_map
    (fun i =>
       flat_map
         (fun v =>
            map (fun p => (i, v, p))
              (filter (fun p => Inspector.id p =? Inspection.inspector_id i)%Z
                 (inspectors st)))
         (filter (fun v => Vehicle.id v =? Inspection.vehicle_id i)%Z (vehicles st)))
    (inspections st).

Definition select_joined (cond : Inspection.t -> bool)
    (order : option (Inspection.t -> Inspection.t -> bool)) (limit : option nat)
  : M (list (Inspection.t * Vehicle.t * Inspector.t)) :=
  fun st =>
    let rows := filter (fun r => cond (fst (fst r))) (join_inspections st) in
    let rows :=
      match order with
      | Some le => order_by (fun a b => le (fst (fst a)) (fst (fst b))) rows
      | None => rows
      end in
    let rows :=
      match limit with
      | Some n => firstn n rows
      | None => rows
      end in
    (Ok rows, st).

Fixpoint mapM {A B} (f : A -> M B) (l : list A) : M (list B) :=
  match l with
  | [] => ret []
  | a :: l' => b <- f a ;; bs <- mapM f l' ;; ret (b :: bs)
  end.

(** ** Vehicle handlers *)

Definition createVehicle (input : CreateVehicleInput) (now : Date)
  : M (option Vehicle.t) :=
  existingVehicles <-
    select_vehicles
      (fun v => (Vehicle.vin v =? cv_vin input)
                || (Vehicle.license_plate v =? cv_license_plate input)) ;;
  match existingVehicles with
  | existingVehicle :: _ =>
      if Vehicle.vin existingVehicle =? cv_vin input then
        throw (Conflict ("Vehicle with VIN " ++ cv_vin input ++ " already exists"))
      else if Vehicle.license_plate existingVehicle =? cv_license_plate input then
        throw (Conflict ("Vehicle with license plate " ++ cv_license_plate input
                         ++ " already exists"))
      else ret tt
  | [] => ret tt
  end ;;;
  result <-
    insert_vehicle (cv_make input) (cv_model input) (cv_year input) (cv_vin input)
      (cv_license_plate input) now ;;
  ret (hd_error result).

Definition getVehicles : M (list Vehicle.t) :=
  results <- select_vehicles (fun _ => true) ;;
  ret (order_by (fun a b => Vehicle.created_at b <=? Vehicle.created_at a)%Z results).

Definition getVehicleById (id : Z) : M (option Vehicle.t) :=
  results <- select_vehicles (fun v => Vehicle.id v =? id)%Z ;;
  if is_empty results then ret None else ret (hd_error results).

(** The conditions pushed on [uniquenessConditions]. *)
Definition uniquenessConditions (input : UpdateVehicleInput)
  : list (Vehicle.t -> bool) :=
  (if truthy_opt (uv_vin input)
   then [fun v => strict_eq (Vehicle.vin v) (uv_vin input)] else [])
  ++
  (if truthy_opt (uv_license_plate input)
   then [fun v => strict_eq (Vehicle.license_plate v) (uv_license_plate input)]
   else []).

(** [and(c1, ..., cn)] *)
Definition sql_and {A} (conds : list (A -> bool)) (row : A) : bool :=
  forallb (fun c => c row) conds.

Definition updateVehicle (input : UpdateVehicleInput) (now : Date)
  : M (option Vehicle.t) :=
  existingVehicles <- select_vehicles (fun v => Vehicle.id v =? uv_id input)%Z ;;
  (if is_empty existingVehicles then
     throw (NotFound ("Vehicle with id " ++ show_Z (uv_id input) ++ " not found"))
   else ret tt) ;;;
  (if negb (is_empty (uniquenessConditions input)) then
     conflicts <-
       select_vehicles
         (sql_and ((fun v => negb (Vehicle.id v =? uv_id input)%Z)
                   :: uniquenessConditions input)) ;;
     match conflicts with
     | conflict :: _ =>
         if truthy_opt (uv_vin input)
            && strict_eq (Vehicle.vin conflict) (uv_vin input) then
           throw (Conflict ("VIN " ++ show_opt (uv_vin input)
                            ++ " is already in use by another vehicle"))
         else if truthy_opt (uv_license_plate input)
                 && strict_eq (Vehicle.license_plate conflict) (uv_license_plate input) then
           throw (Conflict ("License plate " ++ show_opt (uv_license_plate input)
                            ++ " is already in use by another vehicle"))
         else ret tt
     | [] => ret tt
     end
   else ret tt) ;;;
  let updateData :=
    {| vu_make := uv_make input; vu_model := uv_model input; vu_year := uv_year input;
       vu_vin := uv_vin input; vu_license_plate := uv_license_plate input;
       vu_updated_at := now |} in
  result <- update_vehicles (fun v => Vehicle.id v =? uv_id input)%Z updateData ;;
  ret (hd_error result).

(** The acknowledgment [{ success: true }] is the boolean it carries. *)
Definition deleteVehicle (id : Z) : M bool :=
  existingVehicle <-
    (rows <- select_vehicles (fun v => Vehicle.id v =? id)%Z ;; ret (firstn 1 rows)) ;;
  (if is_empty existingVehicle then
     throw (NotFound ("Vehicle with ID " ++ show_Z id ++ " not found"))
   else ret tt) ;;;
  delete_vehicles (fun v => Vehicle.id v =? id)%Z ;;;
  ret true.

(** ** Inspector handlers *)

Definition createInspector (input : CreateInspectorInput) (now : Date)
  : M (option Inspector.t) :=
  existingInspector <-
    select_inspectors (fun p => Inspector.employee_id p =? cp_employee_id input) ;;
  (if negb (is_empty existingInspector) then
     throw (Conflict ("Inspector with employee_id " ++ dquote ++ cp_employee_id input
                      ++ dquote ++ " already exists"))
   else ret tt) ;;;
  result <- insert_inspector (cp_name input) (cp_employee_id input) now ;;
  ret (hd_error result).

Definition getInspectors : M (list Inspector.t) :=
  results <- select_inspectors (fun _ => true) ;;
  ret (order_by (fun a b => collation_le (Inspector.name a) (Inspector.name b)) results).

Definition getInspectorById (id : Z) : M (option Inspector.t) :=
  result <-
    (rows <- select_inspectors (fun p => Inspector.id p =? id)%Z ;; ret (firstn 1 rows)) ;;
  if is_empty result then ret None else ret (hd_error result).

Definition updateInspector (input : UpdateInspectorInput) (now : Date)
  : M (option Inspector.t) :=
  existingInspector <- select_inspectors (fun p => Inspector.id p =? up_id input)%Z ;;
  (if is_empty existingInspector then
     throw (NotFound ("Inspector with ID " ++ show_Z (up_id input) ++ " not found"))
   else ret tt) ;;;
  (if truthy_opt (up_employee_id input) then
     duplicateCheck <-
       select_inspectors
         (fun p => strict_eq (Inspector.employee_id p) (up_employee_id input)
                   && negb (Inspector.id p =? up_id input)%Z) ;;
     if negb (is_empty duplicateCheck) then
       throw (Conflict ("Inspector with employee ID " ++ show_opt (up_employee_id input)
                        ++ " already exists"))
     else ret tt
   else ret tt) ;;;
  let updateData :=
    {| pu_name := up_name input; pu_employee_id := up_employee_id input;
       pu_updated_at := now |} in
  result <- update_inspectors (fun p => Inspector.id p =? up_id input)%Z updateData ;;
  ret (hd_error result).

Definition deleteInspector (id : Z) : M bool :=
  existingInspector <- select_inspectors (fun p => Inspector.id p =? id)%Z ;;
  (if is_empty existingInspector then
     throw (NotFound ("Inspector with id " ++ show_Z id ++ " not found"))
   else ret tt) ;;;
  associatedInspections <-
    select_inspections (fun i => Inspection.inspector_id i =? id)%Z ;;
  (if negb (is_empty associatedInspections) then
     throw (ReferentialIntegrity
              ("Cannot delete inspector with id " ++ show_Z id
               ++ " because they have " ++ show_nat (List.length associatedInspections)
               ++ " associated inspection(s)"))
   else ret tt) ;;;
  delete_inspectors (fun p => Inspector.id p =? id)%Z ;;;
  ret true.

(** ** Inspection handlers *)

Definition createInspection (input : CreateInspectionInput) (now : Date)
  : M (option Inspection.t) :=
  vehicle <- select_vehicles (fun v => Vehicle.id v =? ci_vehicle_id input)%Z ;;
  (if is_empty vehicle then
     throw (NotFound ("Vehicle with id " ++ show_Z (ci_vehicle_id input)
                      ++ " does not exist"))
   else ret tt) ;;;
  inspector <- select_inspectors (fun p => Inspector.id p =? ci_inspector_id input)%Z ;;
  (if is_empty inspector then
     throw (NotFound ("Inspector with id " ++ show_Z (ci_inspector_id input)
                      ++ " does not exist"))
   else ret tt) ;;;
  result <-
    insert_inspection (ci_vehicle_id input) (ci_inspector_id input)
      (ci_inspection_date input) false (or_null (ci_notes input)) now ;;
  ret (hd_error result).

Definition getInspections : M (list Inspection.t) :=
  results <- select_inspections (fun _ => true) ;;
  ret (order_by
         (fun a b => Inspection.inspection_date b <=? Inspection.inspection_date a)%Z
         results).

Definition updateInspection (input : UpdateInspectionInput) (now : Date)
  : M (option Inspection.t) :=
  let updateData :=
    {| iu_completed := ui_completed input; iu_notes := ui_notes input;
       iu_updated_at := now |} in
  result <- update_inspections (fun i => Inspection.id i =? ui_id input)%Z updateData ;;
  (if is_empty result then
     throw (NotFound ("Inspection with id " ++ show_Z (ui_id input) ++ " not found"))
   else ret tt) ;;;
  ret (hd_error result).

(** [items.map(item => ({ id: item.id, ... }))] *)
Definition copy_item (item : InspectionItem.t) : InspectionItem.t :=
  InspectionItem.mk (InspectionItem.id item) (InspectionItem.inspection_id item)
    (InspectionItem.item_name item) (InspectionItem.status item)
    (InspectionItem.comments item) (InspectionItem.created_at item)
    (InspectionItem.updated_at item).

Definition copy_vehicle (v : Vehicle.t) : Vehicle.t :=
  Vehicle.mk (Vehicle.id v) (Vehicle.make v) (Vehicle.model v) (Vehicle.year v)
    (Vehicle.vin v) (Vehicle.license_plate v) (Vehicle.created_at v)
    (Vehicle.updated_at v).

Definition copy_inspector (p : Inspector.t) : Inspector.t :=
  Inspector.mk (Inspector.id p) (Inspector.name p) (Inspector.employee_id p)
    (Inspector.created_at p) (Inspector.updated_at p).

(** The nested object built from one joined row and the items found for it. *)
Definition with_details (r : Inspection.t * Vehicle.t * Inspector.t)
    (items : list InspectionItem.t) : InspectionWithDetails.t :=
  let '(inspection, vehicle, inspector) := r in
  InspectionWithDetails.mk (Inspection.id inspection) (Inspection.vehicle_id inspection)
    (Inspection.inspector_id inspection) (Inspection.inspection_date inspection)
    (Inspection.completed inspection) (Inspection.notes inspection)
    (Inspection.created_at inspection) (Inspection.updated_at inspection)
    (copy_vehicle vehicle) (copy_inspector inspector) items.

Definition getInspectionDetails (inspection_id : Z)
  : M (option InspectionWithDetails.t) :=
  inspectionResult <-
    select_joined (fun i => Inspection.id i =? inspection_id)%Z None None ;;
  match inspectionResult with
  | [] => ret None
  | result :: _ =>
      inspectionItems <-
        select_inspection_items
          (fun t => InspectionItem.inspection_id t =? inspection_id)%Z ;;
      ret (Some (with_details result (map copy_item inspectionItems)))
  end.

(** [itemsByInspection[id] || []] on the object the [reduce] builds: the
    items of [inspectionItems] with that [inspection_id], in their order. *)
Definition itemsByInspection (inspectionItems : list InspectionItem.t) (id : Z)
  : list InspectionItem.t :=
  filter (fun t => InspectionItem.inspection_id t =? id)%Z inspectionItems.

Definition getVehicleInspections (vehicle_id : Z) : M (list InspectionWithDetails.t) :=
  results <-
    select_joined (fun i => Inspection.vehicle_id i =? vehicle_id)%Z
      (Some (fun a b => Inspection.inspection_date b <=? Inspection.inspection_date a)%Z)
      None ;;
  let inspectionIds := map (fun r => Inspection.id (fst (fst r))) results in
  inspectionItems <-
    match inspectionIds with
    | [] => ret []
    | first :: others =>
        items0 <-
          select_inspection_items (fun t => InspectionItem.inspection_id t =? first)%Z ;;
        more <-
          mapM (fun id =>
                  select_inspection_items
                    (fun t => InspectionItem.inspection_id t =? id)%Z)
            others ;;
        ret (items0 ++ List.concat more)%list
    end ;;
  ret (map (fun r =>
              with_details r
                (itemsByInspection inspectionItems (Inspection.id (fst (fst r)))))
         results).

(** ** Inspection item handlers *)

Definition createInspectionItems (input : CreateInspectionItemsInput) (now : Date)
  : M (list InspectionItem.t) :=
  inspection <-
    select_inspections (fun i => Inspection.id i =? cii_inspection_id input)%Z ;;
  (if is_empty inspection then
     throw (NotFound ("Inspection with id " ++ show_Z (cii_inspection_id input)
                      ++ " not found"))
   else ret tt) ;;;
  if is_empty (cii_items input) then ret []
  else
    let itemsToInsert :=
      map (fun item =>
             {| iv_inspection_id := cii_inspection_id input;
                iv_item_name := ii_item_name item;
                iv_status := ii_status item;
                iv_comments := or_null (ii_comments item) |})
        (cii_items input) in
    result <- insert_inspection_items itemsToInsert now ;;
    ret result.

Definition updateInspectionItem (input : UpdateInspectionItemInput) (now : Date)
  : M (option InspectionItem.t) :=
  let updateData :=
    {| tu_status := uii_status input; tu_comments := uii_comments input;
       tu_updated_at := now |} in
  result <-
    update_inspection_items (fun t => InspectionItem.id t =? uii_id input)%Z updateData ;;
  (if is_empty result then
     throw (NotFound ("Inspection item with id " ++ show_Z (uii_id input)
                      ++ " not found"))
   else ret tt) ;;;
  ret (hd_error result).

(** ** Reporting *)

(** [query[0]?.count || 0] *)
Definition count_or_zero (query : list Z) : Z :=
  match hd_error query with
  | Some n => if (n =? 0)%Z then 0%Z else n
  | None => 0%Z
  end.

Definition getInspectionReport : M InspectionReport :=
  totalInspectionsQuery <- count_inspections (fun _ => true) ;;
  completedInspectionsQuery <-
    count_inspections (fun i => Bool.eqb (Inspection.completed i) true) ;;
  let total_inspections := count_or_zero totalInspectionsQuery in
  let completed_inspections := count_or_zero completedInspectionsQuery in
  let pending_inspections := (total_inspections - completed_inspections)%Z in
  recentInspectionsResults <-
    select_joined (fun _ => true)
      (Some (fun a b => Inspection.created_at b <=? Inspection.created_at a)%Z)
      (Some 10%nat) ;;
  recent_inspections <-
    mapM (fun r =>
            items <-
              select_inspection_items
                (fun t => InspectionItem.inspection_id t =? Inspection.id (fst (fst r)))%Z ;;
            ret (with_details r (map copy_item items)))
      recentInspectionsResults ;;
  ret {| total_inspections := total_inspections;
         completed_inspections := completed_inspections;
         pending_inspections := pending_inspections;
         recent_inspections := recent_inspections |}.

End Storage.

(** The part of a report entry that comes from the inspections table. *)
Definition inspection_of (d : InspectionWithDetails.t) : Inspection.t :=
  Inspection.mk (InspectionWithDetails.id d) (InspectionWithDetails.vehicle_id d)
    (InspectionWithDetails.inspector_id d) (InspectionWithDetails.inspection_date d)
    (InspectionWithDetails.completed d) (InspectionWithDetails.notes d)
    (InspectionWithDetails.created_at d) (InspectionWithDetails.updated_at d).

(** Modelled from the spec: the primary keys and foreign keys of
    db/schema.ts (absent). Identifiers of vehicles and of inspectors are
    unique, and every inspection references a vehicle and an inspector that
    exist. The cascade on vehicles and the guard of [deleteInspector] keep
    it that way. *)
Definition referential_integrity (st : State) : Prop :=
  NoDup (map Vehicle.id (vehicles st))
  /\ NoDup (map Inspector.id (inspectors st))
  /\ (forall i, In i (inspections st) ->
        (exists v, In v (vehicles st) /\ Vehicle.id v = Inspection.vehicle_id i)
        /\ (exists p, In p (inspectors st) /\ Inspector.id p = Inspection.inspector_id i)).

(** The invariant of the stores the handlers produce: the references are
    intact and the sequences of vehicles and inspectors are ahead of every
    identifier handed out. *)
Definition store_invariant (st : State) : Prop :=
  referential_integrity st
  /\ (forall v, In v (vehicles st) -> (Vehicle.id v < vehicles_seq st)%Z)
  /\ (forall p, In p (inspectors st) -> (Inspector.id p < inspectors_seq st)%Z).

(** The store after the migrations, before any call. *)
Definition empty_store : State :=
  {| vehicles := []; inspectors := []; inspections := []; inspection_items := [];
     vehicles_seq := 1; inspectors_seq := 1;
     inspections_seq := 1; inspection_items_seq := 1 |}.

(** ** A sample store

    Three vehicles, one inspector, two inspections and one item; used to
    run the handlers on concrete inputs. *)

Definition sample_vehicle1 : Vehicle.t :=
  Vehicle.mk 1 "Toyota" "Camry" 2020 "1HGCM82633A111111" "AAA111" 1000 1000.

Definition sample_vehicle2 : Vehicle.t :=
  Vehicle.mk 2 "Honda" "Civic" 2021 "1HGCM82633A222222" "BBB222" 2000 2000.

Definition sample_vehicle3 : Vehicle.t :=
  Vehicle.mk 3 "Ford" "F-150" 2022 "1HGCM82633A333333" "CCC333" 3000 3000.

Definition sample_inspector1 : Inspector.t :=
  Inspector.mk 1 "John Smith" "EMP001" 1000 1000.

Definition sample_inspection1 : Inspection.t :=
  Inspection.mk 1 1 1 5000 false (Some "Routine inspection") 5000 5000.

Definition sample_inspection2 : Inspection.t :=
  Inspection.mk 2 2 1 6000 true None 6000 6000.

Definition sample_item1 : InspectionItem.t :=
  InspectionItem.mk 1 1 "Brakes" pass None 5500 5500.

Definition sample_store : State :=
  {| vehicles := [sample_vehicle1; sample_vehicle2; sample_vehicle3];
     inspectors := [sample_inspector1];
     inspections := [sample_inspection1; sample_inspection2];
     inspection_items := [sample_item1];
     vehicles_seq := 4; inspectors_seq := 2;
     inspections_seq := 3; inspection_items_seq := 2 |}.

(** A new vehicle whose VIN is held by the second vehicle of the sample
    store and whose license plate is held by the first. *)
Definition two_row_collision : CreateVehicleInput :=
  {| cv_make := "Nissan"; cv_model := "Leaf"; cv_year := 2023;
     cv_vin := "1HGCM82633A222222"; cv_license_plate := "AAA111" |}.

(** A patch of the third vehicle that takes the VIN of the first and the
    license plate of the second. *)
Definition crossed_patch : UpdateVehicleInput :=
  {| uv_id := 3; uv_make := None; uv_model := None; uv_year := None;
     uv_vin := Some "1HGCM82633A111111"; uv_license_plate := Some "BBB222" |}.

(** A patch of the third vehicle that takes the VIN of the first and a
    license plate nobody holds. *)
Definition half_crossed_patch : UpdateVehicleInput :=
  {| uv_id := 3; uv_make := None; uv_model := None; uv_year := None;
     uv_vin := Some "1HGCM82633A111111"; uv_license_plate := Some "NEW999" |}.

(** ** Further invariants of the store *)

(** The unique columns hold no value twice. *)
Definition keys_unique (st : State) : Prop :=
  NoDup (map Vehicle.vin (vehicles st))
  /\ NoDup (map Vehicle.license_plate (vehicles st))
  /\ NoDup (map Inspector.employee_id (inspectors st)).

(** Identifiers of inspections are unique and behind their sequence. *)
Definition inspections_keyed (st : State) : Prop :=
  NoDup (map Inspection.id (inspections st))
  /\ (forall i, In i (inspections st) -> (Inspection.id i < inspections_seq st)%Z).

(** ** The grouping of [getVehicleInspections], step by step

    The [reduce] of the handler fills an object keyed by [inspection_id];
    the object is read by key only, so it is a partial function from keys to
    arrays of items. *)

Definition ItemsObject : Type := Z -> option (list InspectionItem.t).

Definition empty_object : ItemsObject := fun _ => None.

Definition object_set (acc : ItemsObject) (key : Z) (value : list InspectionItem.t)
  : ItemsObject :=
  fun k => if (k =? key)%Z then Some value else acc k.

(** One call of the reducer: [if (!acc[k]) acc[k] = []; acc[k].push(item)].
    An array, empty or not, is truthy. *)
Definition reduce_step (acc : ItemsObject) (item : InspectionItem.t) : ItemsObject :=
  let key := InspectionItem.inspection_id item in
  let acc :=
    match acc key with
    | None => object_set acc key []
    | Some _ => acc
    end in
  match acc key with
  | Some bucket => object_set acc key (bucket ++ [item])
  | None => acc
  end.

Definition reduce_items (inspectionItems : list InspectionItem.t) : ItemsObject :=
  fold_left reduce_step inspectionItems empty_object.

(** [itemsByInspection[id] || []] on that object. *)
Definition object_get_or_empty (acc : ItemsObject) (id : Z) : list InspectionItem.t :=
  match acc id with
  | Some bucket => bucket
  | None => []
  end.

(** ** Client-side computations (client/src/components) *)

(** [filteredInspections] of the inspection list view; [filterStatus] is a
    free string of the component state. *)
Definition filteredInspections (filterStatus : string) (inspections : list Inspection.t)
  : list Inspection.t :=
  filter
    (fun inspection =>
       if filterStatus =? "all" then true
       else if filterStatus =? "completed" then Inspection.completed inspection
       else if filterStatus =? "pending" then negb (Inspection.completed inspection)
       else true)
    inspections.

(** The catalog of suggested item names. *)
Definition INSPECTION_ITEMS : list string :=
  [ "Engine"; "Brakes"; "Headlights"; "Taillights"; "Turn Signals";
    "Tires - Front Left"; "Tires - Front Right"; "Tires - Rear Left";
    "Tires - Rear Right"; "Windshield"; "Side Mirrors"; "Seat Belts"; "Horn";
    "Exhaust System"; "Battery"; "Wipers"; "Interior Condition";
    "Body Condition"; "Registration/Documentation" ].

(** A row of the add-items dialog. *)
Record NewItem : Type := {
  ni_item_name : string;
  ni_status : ItemStatus;
  ni_comments : option string
}.

(** [existingItemNames.has(item)] for the set built from a list of names. *)
Definition set_has (names : list string) (item : string) : bool :=
  existsb (fun n => n =? item) names.

(** [addNewItemRow]: the next value of the [newItems] state; [inspection]
    is the loaded inspection, or [None] while there is none. *)
Definition addNewItemRow (inspection : option InspectionWithDetails.t)
    (newItems : list NewItem) : list NewItem :=
  match inspection with
  | None => newItems
  | Some inspection =>
      let existingItemNames :=
        (map InspectionItem.item_name (InspectionWithDetails.items inspection)
         ++ map ni_item_name newItems)%list in
      let availableItems :=
        filter (fun item => negb (set_has existingItemNames item)) INSPECTION_ITEMS in
      match availableItems with
      | first :: _ =>
          (newItems
           ++ [ {| ni_item_name := first; ni_status := not_applicable;
                   ni_comments := None |} ])%list
      | [] => newItems
      end
  end.

(** [newItems.filter((_, i) => i !== index)] *)
Fixpoint filter_index {A} (keep : nat -> bool) (i : nat) (l : list A) : list A :=
  match l with
  | [] => []
  | x :: l' =>
      if keep i then x :: filter_index keep (S i) l' else filter_index keep (S i) l'
  end.

Definition removeNewItemRow (newItems : list NewItem) (index : nat) : list NewItem :=
  filter_index (fun i => negb (Nat.eqb i index)) 0 newItems.

(** [isCompleted] of the details view:
    [inspection?.items.every(item => item.status !== 'not_applicable') || false] *)
Definition isCompleted (inspection : option InspectionWithDetails.t) : bool :=
  match inspection with
  | None => false
  | Some inspection =>
      forallb
        (fun item =>
           match InspectionItem.status item with
           | not_applicable => false
           | pass | fail => true
           end)
        (InspectionWithDetails.items inspection)
  end.

(** The vehicle form of the edit dialog and the payload its submit sends to
    [updateVehicle]: [{ id: editingVehicle.id, ...formData }]. *)
Record VehicleFormData : Type := {
  fd_make : string;
  fd_model : string;
  fd_year : Z;
  fd_vin : string;
  fd_license_plate : string
}.

Definition edit_payload (editingVehicle : Vehicle.t) (formData : VehicleFormData)
  : UpdateVehicleInput :=
  {| uv_id := Vehicle.id editingVehicle;
     uv_make := Some (fd_make formData);
     uv_model := Some (fd_model formData);
     uv_year := Some (fd_year formData);
     uv_vin := Some (fd_vin formData);
     uv_license_plate := Some (fd_license_plate formData) |}.

(** ** Proof steps shared by the handlers

    [unfold_storage] exposes the statements a handler issues, [case_step]
    follows one branch of the handler, [settle_error] closes the branches in
    which nothing is left to show. *)

Ltac unfold_storage :=
  unfold bind, ret, throw, select_vehicles, select_inspectors, select_inspections,
    select_inspection_items, insert_vehicle, insert_inspector, insert_inspection,
    insert_inspection_items, update_vehicles, update_inspectors, update_inspections,
    update_inspection_items, delete_vehicles, delete_inspectors, count_inspections,
    select_joined in *.

Ltac case_step :=
  match goal with
  | |- context [if ?b then _ else _] => destruct b eqn:?
  | |- context [match ?l with [] => _ | _ :: _ => _ end] => destruct l eqn:?
  end.

Ltac settle_error :=
  cbn [fst snd]; intros; try discriminate; try reflexivity.

(** * General facts on lists and on [order_by] *)

Section OrderBy.

Context {A : Type} (le : A -> A -> bool).
Hypothesis le_total : forall a b, le a b = true \/ le b a = true.
Hypothesis le_trans : forall a b c, le a b = true -> le b c = true -> le a c = true.

Lemma insert_sorted_perm (x : A) (l : list A) :
  Permutation (insert_sorted le x l) (x :: l).
Proof.
  induction l as [|y l IH]; simpl.
  - apply Permutation_refl.
  - destruct (le x y).
    + apply Permutation_refl.
    + apply perm_trans with (y :: x :: l).
      * apply perm_skip, IH.
      * apply perm_swap.
Qed.

Lemma order_by_perm (l : list A) : Permutation (order_by le l) l.
Proof.
  induction l as [|x l IH]; simpl.
  - apply perm_nil.
  - apply perm_trans with (x :: order_by le l).
    + apply insert_sorted_perm.
    + apply perm_skip, IH.
Qed.

Lemma insert_sorted_strongly (x : A) (l : list A) :
  StronglySorted (fun a b => le a b = true) l ->
  StronglySorted (fun a b => le a b = true) (insert_sorted le x l).
Proof.
  induction 1 as [|y l Hs IH Hall]; simpl.
  - constructor; constructor.
  - destruct (le x y) eqn:Hxy.
    + constructor.
      * constructor; assumption.
      * constructor; [assumption|].
        eapply Forall_impl; [|exact Hall].
        intros z Hz. eapply le_trans; eassumption.
    + constructor; [assumption|].
      assert (Hyx : le y x = true) by (destruct (le_total x y); congruence).
      eapply Permutation_Forall.
      * apply Permutation_sym, insert_sorted_perm.
      * constructor; assumption.
Qed.

Lemma order_by_sorted (l : list A) :
  StronglySorted (fun a b => le a b = true) (order_by le l).
Proof.
  induction l as [|x l IH]; simpl.
  - constructor.
  - apply insert_sorted_strongly, IH.
Qed.

End OrderBy.

Lemma StronglySorted_app_cross {A} (R : A -> A -> Prop) (l1 l2 : list A) :
  StronglySorted R (l1 ++ l2) ->
  forall x y, In x l1 -> In y l2 -> R x y.
Proof.
  induction l1 as [|a l1 IH]; simpl; intros Hs x y Hx Hy.
  - contradiction.
  - inversion Hs as [|? ? Hs' Hall]; subst.
    destruct Hx as [<-|Hx].
    + rewrite Forall_forall in Hall. apply Hall, in_or_app. now right.
    + eapply IH; eassumption.
Qed.

Lemma StronglySorted_app_left {A} (R : A -> A -> Prop) (l1 l2 : list A) :
  StronglySorted R (l1 ++ l2) -> StronglySorted R l1.
Proof.
  induction l1 as [|a l1 IH]; simpl; intros Hs.
  - constructor.
  - inversion Hs as [|? ? Hs' Hall]; subst. constructor.
    + apply IH, Hs'.
    + apply Forall_app in Hall. apply Hall.
Qed.

Lemma StronglySorted_map {A B} (f : A -> B) (R : B -> B -> Prop) (l : list A) :
  StronglySorted (fun a b => R (f a) (f b)) l -> StronglySorted R (map f l).
Proof.
  induction 1 as [|a l Hs IH Hall]; simpl; constructor.
  - exact IH.
  - rewrite Forall_forall in *. intros y Hy.
    apply in_map_iff in Hy. destruct Hy as [x [<- Hx]]. now apply Hall.
Qed.

Lemma StronglySorted_weaken {A} (R R' : A -> A -> Prop) (l : list A) :
  (forall a b, R a b -> R' a b) -> StronglySorted R l -> StronglySorted R' l.
Proof.
  intros Himp. induction 1 as [|a l Hs IH Hall]; constructor.
  - exact IH.
  - eapply Forall_impl; [|exact Hall]. intros b. apply Himp.
Qed.

Lemma filter_all {A} (l : list A) : filter (fun _ => true) l = l.
Proof.
  induction l as [|x l IH]; simpl; [reflexivity|]. now rewrite IH.
Qed.

Lemma in_firstn {A} (n : nat) (l : list A) (x : A) : In x (firstn n l) -> In x l.
Proof.
  intros H. rewrite <- (firstn_skipn n l). apply in_or_app. now left.
Qed.

Lemma filter_nil_none {A} (f : A -> bool) (l : list A) :
  filter f l = [] -> forall x, In x l -> f x = false.
Proof.
  intros Hnil x Hx. destruct (f x) eqn:Hfx; [|reflexivity].
  assert (Hin : In x (filter f l)) by (apply filter_In; now split).
  rewrite Hnil in Hin. contradiction.
Qed.

Lemma update_rows_no_match {A} (cond : A -> bool) (set : A -> A) (rows : list A) :
  filter cond rows = [] -> update_rows cond set rows = rows.
Proof.
  intros Hnil. unfold update_rows. rewrite Hnil. simpl. rewrite app_nil_r.
  rewrite <- (filter_all rows) at 2. apply filter_ext_in. intros x Hx.
  now rewrite (filter_nil_none cond rows Hnil x Hx).
Qed.


Lemma update_rows_written {A} (cond : A -> bool) (set : A -> A) (rows : list A) (r : A) :
  In r (filter cond rows) -> In (set r) (update_rows cond set rows).
Proof.
  intros Hin. unfold update_rows. apply in_or_app. right. now apply in_map.
Qed.

Lemma existsb_filter_nil {A} (f : A -> bool) (l : list A) :
  filter f l = [] -> existsb f l = false.
Proof.
  induction l as [|x l IH]; simpl; intros H.
  - reflexivity.
  - destruct (f x); [discriminate|]. now apply IH.
Qed.

Lemma with_vehicles_same (st : State) :
  with_vehicles st (vehicles st) (vehicles_seq st) = st.
Proof. now destruct st. Qed.

Lemma with_inspectors_same (st : State) :
  with_inspectors st (inspectors st) (inspectors_seq st) = st.
Proof. now destruct st. Qed.

Lemma with_inspections_same (st : State) :
  with_inspections st (inspections st) (inspections_seq st) = st.
Proof. now destruct st. Qed.

Lemma with_inspection_items_same (st : State) :
  with_inspection_items st (inspection_items st) (inspection_items_seq st) = st.
Proof. now destruct st. Qed.

Lemma copy_item_same (t : InspectionItem.t) : copy_item t = t.
Proof. now destruct t. Qed.

Lemma copy_vehicle_same (v : Vehicle.t) : copy_vehicle v = v.
Proof. now destruct v. Qed.

Lemma copy_inspector_same (p : Inspector.t) : copy_inspector p = p.
Proof. now destruct p. Qed.

Lemma map_copy_item (l : list InspectionItem.t) : map copy_item l = l.
Proof.
  induction l as [|t l IH]; simpl; [reflexivity|].
  now rewrite copy_item_same, IH.
Qed.

Lemma string_leb_trans (s1 : string) :
  forall s2 s3,
    String.leb s1 s2 = true -> String.leb s2 s3 = true -> String.leb s1 s3 = true.
Proof.
  unfold String.leb.
  induction s1 as [|c1 s1 IH]; intros [|c2 s2] [|c3 s3]; simpl;
    try congruence.
  unfold Ascii.compare.
  destruct (N.compare_spec (N_of_ascii c1) (N_of_ascii c2)) as [E12|L12|G12];
    destruct (N.compare_spec (N_of_ascii c2) (N_of_ascii c3)) as [E23|L23|G23];
    try congruence.
  - rewrite E12, E23, N.compare_refl. apply IH.
  - rewrite E12. apply N.compare_lt_iff in L23. now rewrite L23.
  - rewrite <- E23. apply N.compare_lt_iff in L12. now rewrite L12.
  - assert (L13 : (N_of_ascii c1 < N_of_ascii c3)%N) by lia.
    apply N.compare_lt_iff in L13. now rewrite L13.
Qed.

Lemma created_at_desc_total (a b : Z) : (b <=? a)%Z = true \/ (a <=? b)%Z = true.
Proof. lia. Qed.

(** * Listing handlers *)

(** C9: [getVehicles] returns every vehicle row exactly once, newest
    [created_at] first, and [getInspectors] returns every inspector row
    exactly once, by [name] ascending in the order of the collation (any
    total, transitive order of strings). Neither changes the store. *)
Theorem getVehicles_getInspectors_sorted
    (collation_le : string -> string -> bool) (st : State) :
  (forall a b, collation_le a b = true \/ collation_le b a = true) ->
  (forall a b c,
      collation_le a b = true -> collation_le b c = true -> collation_le a c = true) ->
  (exists rows,
      getVehicles st = (Ok rows, st)
      /\ Permutation rows (vehicles st)
      /\ StronglySorted
           (fun a b => (Vehicle.created_at b <= Vehicle.created_at a)%Z) rows)
  /\ (exists rows,
        getInspectors collation_le st = (Ok rows, st)
        /\ Permutation rows (inspectors st)
        /\ StronglySorted
             (fun a b => collation_le (Inspector.name a) (Inspector.name b) = true)
             rows).
Proof.
  intros Htotal Htrans. split.
  - eexists. split; [reflexivity|]. rewrite filter_all. split.
    + apply order_by_perm.
    + eapply StronglySorted_weaken.
      2: { apply (order_by_sorted
                    (fun a b => (Vehicle.created_at b <=? Vehicle.created_at a)%Z)).
           - intros a b. apply created_at_desc_total.
           - intros a b c H1 H2. apply Z.leb_le in H1, H2. apply Z.leb_le. lia. }
      intros a b H. simpl in H. now apply Z.leb_le.
  - eexists. split; [reflexivity|]. rewrite filter_all. split.
    + apply order_by_perm.
    + apply (order_by_sorted
               (fun a b => collation_le (Inspector.name a) (Inspector.name b))).
      * intros a b. apply Htotal.
      * intros a b c. apply Htrans.
Qed.

(** With the order of character codes, on the sample store. *)
Lemma getVehicles_getInspectors_sorted_witness :
  (exists rows,
      getVehicles sample_store = (Ok rows, sample_store)
      /\ Permutation rows (vehicles sample_store))
  /\ (exists rows,
        getInspectors String.leb sample_store = (Ok rows, sample_store)
        /\ Permutation rows (inspectors sample_store)).
Proof.
  destruct (getVehicles_getInspectors_sorted String.leb sample_store)
    as [[vs (Hv & Hvp & _)] [ps (Hp & Hpp & _)]].
  - apply String.leb_total.
  - intros a b c. apply string_leb_trans.
  - split; [exists vs|exists ps]; split; assumption.
Defined.

(** * The inspection report *)

Lemma filter_key_unique {A} (key : A -> Z) (l : list A) (x : A) :
  NoDup (map key l) -> In x l ->
  filter (fun y => key y =? key x)%Z l = [x].
Proof.
  induction l as [|a l IH]; simpl; intros Hnd Hin.
  - contradiction.
  - inversion Hnd as [|? ? Hnotin Hnd']; subst.
    destruct Hin as [->|Hin].
    + rewrite Z.eqb_refl. f_equal.
      destruct (filter (fun y => key y =? key x)%Z l) as [|b rest] eqn:Hf;
        [reflexivity|].
      assert (Hb : In b (filter (fun y => key y =? key x)%Z l))
        by (rewrite Hf; now left).
      apply filter_In in Hb. destruct Hb as [Hb Hkey].
      apply Z.eqb_eq in Hkey. exfalso. apply Hnotin.
      rewrite <- Hkey. now apply in_map.
    + destruct (key a =? key x)%Z eqn:Hk.
      * apply Z.eqb_eq in Hk. exfalso. apply Hnotin.
        rewrite Hk. now apply in_map.
      * now apply IH.
Qed.

Lemma join_row_sound (st : State) (i : Inspection.t) (v : Vehicle.t) (p : Inspector.t) :
  In (i, v, p) (join_inspections st) ->
  In i (inspections st)
  /\ In v (vehicles st) /\ Vehicle.id v = Inspection.vehicle_id i
  /\ In p (inspectors st) /\ Inspector.id p = Inspection.inspector_id i.
Proof.
  unfold join_inspections. intros H.
  apply in_flat_map in H. destruct H as [i' [Hi H]].
  apply in_flat_map in H. destruct H as [v' [Hv H]].
  apply in_map_iff in H. destruct H as [p' [Heq Hp]].
  inversion Heq; subst.
  apply filter_In in Hv. apply filter_In in Hp.
  destruct Hv as [Hv Hvid]. destruct Hp as [Hp Hpid].
  apply Z.eqb_eq in Hvid, Hpid. tauto.
Qed.

Lemma join_inspections_all (st : State) :
  referential_integrity st ->
  map (fun r => fst (fst r)) (join_inspections st) = inspections st.
Proof.
  intros [Hv [Hp Href]]. unfold join_inspections.
  induction (inspections st) as [|i l IH]; simpl.
  - reflexivity.
  - destruct (Href i (or_introl eq_refl)) as [[v [Hvin Hvid]] [p [Hpin Hpid]]].
    rewrite <- Hvid, <- Hpid.
    rewrite (filter_key_unique Vehicle.id _ v Hv Hvin).
    rewrite (filter_key_unique Inspector.id _ p Hp Hpin).
    simpl. f_equal. apply IH. intros j Hj. apply Href. now right.
Qed.

Lemma mapM_reads {A B} (f : A -> M B) (g : A -> B) (l : list A) (st : State) :
  (forall a, f a st = (Ok (g a), st)) -> mapM f l st = (Ok (map g l), st).
Proof.
  intros Hf. induction l as [|a l IH]; simpl.
  - reflexivity.
  - unfold bind. rewrite Hf, IH. reflexivity.
Qed.

Lemma count_or_zero_single (n : Z) : count_or_zero [n] = n.
Proof.
  unfold count_or_zero. simpl. destruct (n =? 0)%Z eqn:H; [|reflexivity].
  apply Z.eqb_eq in H. now subst.
Qed.

Lemma inspection_of_with_details (r : Inspection.t * Vehicle.t * Inspector.t)
    (items : list InspectionItem.t) :
  inspection_of (with_details r items) = fst (fst r).
Proof. destruct r as [[i v] p]. now destruct i. Qed.

Lemma with_details_vehicle i v p items :
  InspectionWithDetails.vehicle (with_details (i, v, p) items) = v.
Proof. simpl. apply copy_vehicle_same. Qed.

Lemma with_details_inspector i v p items :
  InspectionWithDetails.inspector (with_details (i, v, p) items) = p.
Proof. simpl. apply copy_inspector_same. Qed.

(** The report, as a function of the store. *)
Lemma getInspectionReport_eq (st : State) :
  getInspectionReport st =
  (Ok {| total_inspections := Z.of_nat (List.length (inspections st));
         completed_inspections :=
           Z.of_nat (List.length (filter Inspection.completed (inspections st)));
         pending_inspections :=
           (Z.of_nat (List.length (inspections st))
            - Z.of_nat (List.length (filter Inspection.completed (inspections st))))%Z;
         recent_inspections :=
           map (fun r =>
                  with_details r
                    (filter
                       (fun t => InspectionItem.inspection_id t
                                 =? Inspection.id (fst (fst r)))%Z
                       (inspection_items st)))
             (firstn 10
                (order_by
                   (fun a b => Inspection.created_at (fst (fst b))
                               <=? Inspection.created_at (fst (fst a)))%Z
                   (join_inspections st))) |},
   st).
Proof.
  unfold getInspectionReport, bind, count_inspections, select_joined, ret.
  rewrite !count_or_zero_single, !filter_all.
  rewrite (filter_ext (fun i => Bool.eqb (Inspection.completed i) true)
             Inspection.completed)
    by (intros i; now destruct (Inspection.completed i)).
  erewrite mapM_reads; [reflexivity|].
  intros r. unfold select_inspection_items. now rewrite map_copy_item.
Qed.

(** C8: on a store whose references are intact, [getInspectionReport]
    counts all inspections and the completed ones, reports the difference as
    pending, and lists the at most ten inspections created last, newest
    first, each with its vehicle, its inspector and its items; with no
    inspection the counts are zero and the list is empty. *)
Theorem getInspectionReport_correct (st : State) :
  referential_integrity st ->
  exists report,
    getInspectionReport st = (Ok report, st)
    /\ total_inspections report = Z.of_nat (List.length (inspections st))
    /\ completed_inspections report
       = Z.of_nat (List.length (filter Inspection.completed (inspections st)))
    /\ pending_inspections report
       = (total_inspections report - completed_inspections report)%Z
    /\ List.length (recent_inspections report)
       = Nat.min 10 (List.length (inspections st))
    /\ StronglySorted
         (fun a b => (InspectionWithDetails.created_at b
                      <= InspectionWithDetails.created_at a)%Z)
         (recent_inspections report)
    /\ (exists rest,
          Permutation (map inspection_of (recent_inspections report) ++ rest)
            (inspections st)
          /\ forall d x, In d (recent_inspections report) -> In x rest ->
               (Inspection.created_at x <= InspectionWithDetails.created_at d)%Z)
    /\ (forall d, In d (recent_inspections report) ->
          In (InspectionWithDetails.vehicle d) (vehicles st)
          /\ Vehicle.id (InspectionWithDetails.vehicle d)
             = InspectionWithDetails.vehicle_id d
          /\ In (InspectionWithDetails.inspector d) (inspectors st)
          /\ Inspector.id (InspectionWithDetails.inspector d)
             = InspectionWithDetails.inspector_id d
          /\ InspectionWithDetails.items d
             = filter (fun t => InspectionItem.inspection_id t
                                =? InspectionWithDetails.id d)%Z
                 (inspection_items st))
    /\ (inspections st = [] ->
          total_inspections report = 0%Z /\ completed_inspections report = 0%Z
          /\ pending_inspections report = 0%Z /\ recent_inspections report = []).
Proof.
  intros Hri. eexists. split; [apply getInspectionReport_eq|].
  cbn [total_inspections completed_inspections pending_inspections
       recent_inspections].
  set (le' := fun a b : Inspection.t * Vehicle.t * Inspector.t =>
                (Inspection.created_at (fst (fst b))
                 <=? Inspection.created_at (fst (fst a)))%Z).
  set (sorted := order_by le' (join_inspections st)).
  set (g := fun r : Inspection.t * Vehicle.t * Inspector.t =>
              with_details r
                (filter (fun t => InspectionItem.inspection_id t
                                  =? Inspection.id (fst (fst r)))%Z
                   (inspection_items st))).
  pose proof (join_inspections_all st Hri) as Hall.
  assert (Hperm : Permutation sorted (join_inspections st)) by apply order_by_perm.
  assert (Hsorted : StronglySorted (fun a b => le' a b = true) sorted).
  { apply order_by_sorted.
    - intros a b. apply created_at_desc_total.
    - intros a b c H1 H2. unfold le' in *.
      apply Z.leb_le in H1, H2. apply Z.leb_le. lia. }
  assert (Hproj : forall l, map inspection_of (map g l) = map (fun r => fst (fst r)) l).
  { intros l. rewrite map_map. apply map_ext. intros r.
    apply inspection_of_with_details. }
  assert (Hcreated : forall r,
             InspectionWithDetails.created_at (g r)
             = Inspection.created_at (fst (fst r))).
  { intros [[i v] p]. reflexivity. }
  assert (Hlen : List.length sorted = List.length (inspections st)).
  { rewrite (Permutation_length Hperm), <- Hall. now rewrite length_map. }
  repeat split.
  - rewrite length_map, length_firstn, Hlen. reflexivity.
  - apply StronglySorted_map with (f := g).
    apply StronglySorted_weaken with (R := fun a b => le' a b = true).
    + intros a b H. rewrite !Hcreated. now apply Z.leb_le.
    + apply StronglySorted_app_left with (l2 := skipn 10 sorted).
      now rewrite firstn_skipn.
  - exists (map (fun r => fst (fst r)) (skipn 10 sorted)). split.
    + rewrite Hproj, <- map_app, firstn_skipn, <- Hall.
      now apply Permutation_map.
    + intros d x Hd Hx.
      apply in_map_iff in Hd. destruct Hd as [r [<- Hr]].
      apply in_map_iff in Hx. destruct Hx as [y [<- Hy]].
      rewrite Hcreated. apply Z.leb_le.
      apply (StronglySorted_app_cross (fun a b => le' a b = true)
               (firstn 10 sorted) (skipn 10 sorted)); try assumption.
      now rewrite firstn_skipn.
  - apply in_map_iff in H. destruct H as [[[i v] p] [<- Hr]].
    apply in_firstn in Hr.
    apply (Permutation_in _ Hperm) in Hr. apply join_row_sound in Hr.
    unfold g. rewrite with_details_vehicle. simpl. tauto.
  - apply in_map_iff in H. destruct H as [[[i v] p] [<- Hr]].
    apply in_firstn in Hr.
    apply (Permutation_in _ Hperm) in Hr. apply join_row_sound in Hr.
    unfold g. rewrite with_details_vehicle. simpl. tauto.
  - apply in_map_iff in H. destruct H as [[[i v] p] [<- Hr]].
    apply in_firstn in Hr.
    apply (Permutation_in _ Hperm) in Hr. apply join_row_sound in Hr.
    unfold g. rewrite with_details_inspector. simpl. tauto.
  - apply in_map_iff in H. destruct H as [[[i v] p] [<- Hr]].
    apply in_firstn in Hr.
    apply (Permutation_in _ Hperm) in Hr. apply join_row_sound in Hr.
    unfold g. rewrite with_details_inspector. simpl. tauto.
  - apply in_map_iff in H. destruct H as [[[i v] p] [<- Hr]]. reflexivity.
  - rewrite H. reflexivity.
  - rewrite H. reflexivity.
  - rewrite H. reflexivity.
  - assert (Hnil : sorted = []).
    { apply length_zero_iff_nil. rewrite Hlen, H. reflexivity. }
    rewrite Hnil. reflexivity.
Qed.

(** * Failure leaves the store unchanged *)

Lemma no_key_taken (x y : string) (l : list Vehicle.t) :
  filter (fun v => (Vehicle.vin v =? x) || (Vehicle.license_plate v =? y)) l = [] ->
  existsb (fun v => Vehicle.vin v =? x) l = false
  /\ existsb (fun v => Vehicle.license_plate v =? y) l = false.
Proof.
  induction l as [|v l IH]; simpl; intros H.
  - now split.
  - destruct (Vehicle.vin v =? x); simpl in *; [discriminate|].
    destruct (Vehicle.license_plate v =? y); simpl in *; [discriminate|].
    now apply IH.
Qed.

Lemma first_match_holds {A} (f : A -> bool) (l : list A) (x : A) (rest : list A) :
  filter f l = x :: rest -> f x = true /\ In x l.
Proof.
  intros H. assert (Hin : In x (filter f l)) by (rewrite H; now left).
  apply filter_In in Hin. tauto.
Qed.

Lemma createVehicle_preserves uq input now :
  preserves_state_on_error (createVehicle uq input now).
Proof.
  intros st e. unfold createVehicle. unfold_storage.
  destruct (filter _ (vehicles st)) as [|existing rest] eqn:Hsel.
  - apply no_key_taken in Hsel. destruct Hsel as [Hvin Hplate].
    unfold vin_taken, license_plate_taken. cbn [Vehicle.vin Vehicle.license_plate].
    rewrite Hvin, Hplate, !andb_false_r. settle_error.
  - apply first_match_holds in Hsel. destruct Hsel as [Hmatch _].
    apply orb_true_iff in Hmatch.
    destruct (Vehicle.vin existing =? cv_vin input); [settle_error|].
    destruct (Vehicle.license_plate existing =? cv_license_plate input);
      [settle_error|].
    destruct Hmatch; discriminate.
Qed.

Lemma updateVehicle_preserves uq input now :
  preserves_state_on_error (updateVehicle uq input now).
Proof.
  intros st e. unfold updateVehicle. unfold_storage.
  repeat (case_step; cbn [fst snd]); settle_error.
Qed.

Lemma deleteVehicle_preserves id : preserves_state_on_error (deleteVehicle id).
Proof.
  intros st e. unfold deleteVehicle. unfold_storage.
  repeat (case_step; cbn [fst snd]); settle_error.
Qed.

Lemma createInspector_preserves uq input now :
  preserves_state_on_error (createInspector uq input now).
Proof.
  intros st e. unfold createInspector. unfold_storage.
  destruct (filter _ (inspectors st)) as [|existing rest] eqn:Hsel.
  - apply existsb_filter_nil in Hsel.
    unfold employee_id_taken. cbn [Inspector.employee_id is_empty negb].
    rewrite Hsel, andb_false_r. settle_error.
  - settle_error.
Qed.

Lemma updateInspector_preserves uq input now :
  preserves_state_on_error (updateInspector uq input now).
Proof.
  intros st e. unfold updateInspector. unfold_storage.
  repeat (case_step; cbn [fst snd]); settle_error.
Qed.

Lemma deleteInspector_preserves id : preserves_state_on_error (deleteInspector id).
Proof.
  intros st e. unfold deleteInspector. unfold_storage.
  repeat (case_step; cbn [fst snd]); settle_error.
Qed.

Lemma createInspection_preserves input now :
  preserves_state_on_error (createInspection input now).
Proof.
  intros st e. unfold createInspection. unfold_storage.
  repeat (case_step; cbn [fst snd]); settle_error.
Qed.

Lemma updateInspection_preserves input now :
  preserves_state_on_error (updateInspection input now).
Proof.
  intros st e. unfold updateInspection. unfold_storage.
  destruct (filter _ (inspections st)) as [|old rest] eqn:Hsel; cbn.
  - intros _. rewrite (update_rows_no_match _ _ _ Hsel).
    apply with_inspections_same.
  - discriminate.
Qed.

Lemma createInspectionItems_preserves input now :
  preserves_state_on_error (createInspectionItems input now).
Proof.
  intros st e. unfold createInspectionItems. unfold_storage.
  repeat (case_step; cbn [fst snd]); settle_error.
Qed.

Lemma updateInspectionItem_preserves input now :
  preserves_state_on_error (updateInspectionItem input now).
Proof.
  intros st e. unfold updateInspectionItem. unfold_storage.
  destruct (filter _ (inspection_items st)) as [|old rest] eqn:Hsel; cbn.
  - intros _. rewrite (update_rows_no_match _ _ _ Hsel).
    apply with_inspection_items_same.
  - discriminate.
Qed.

Lemma getVehicleInspections_reads id (st : State) :
  snd (getVehicleInspections id st) = st.
Proof.
  unfold getVehicleInspections. unfold_storage.
  destruct (map _ _) as [|first others]; [reflexivity|].
  rewrite (mapM_reads _
             (fun id => filter (fun t => InspectionItem.inspection_id t =? id)%Z
                          (inspection_items st)))
    by reflexivity.
  reflexivity.
Qed.

Lemma getInspectionDetails_reads id (st : State) :
  snd (getInspectionDetails id st) = st.
Proof.
  unfold getInspectionDetails. unfold_storage.
  destruct (filter _ (join_inspections st)); reflexivity.
Qed.

(** C2: a handler that throws leaves the store as it was. The writing
    handlers are listed first; [updateInspection] and [updateInspectionItem]
    throw after their update statement, which matched no row. The reading
    handlers follow. The error may be any, the storage layer's included. *)
Theorem handlers_preserve_state_on_error :
  (forall uq input now, preserves_state_on_error (createVehicle uq input now))
  /\ (forall uq input now, preserves_state_on_error (updateVehicle uq input now))
  /\ (forall id, preserves_state_on_error (deleteVehicle id))
  /\ (forall uq input now, preserves_state_on_error (createInspector uq input now))
  /\ (forall uq input now, preserves_state_on_error (updateInspector uq input now))
  /\ (forall id, preserves_state_on_error (deleteInspector id))
  /\ (forall input now, preserves_state_on_error (createInspection input now))
  /\ (forall input now, preserves_state_on_error (updateInspection input now))
  /\ (forall input now, preserves_state_on_error (createInspectionItems input now))
  /\ (forall input now, preserves_state_on_error (updateInspectionItem input now))
  /\ preserves_state_on_error getVehicles
  /\ (forall id, preserves_state_on_error (getVehicleById id))
  /\ (forall collation_le, preserves_state_on_error (getInspectors collation_le))
  /\ (forall id, preserves_state_on_error (getInspectorById id))
  /\ preserves_state_on_error getInspections
  /\ (forall id, preserves_state_on_error (getInspectionDetails id))
  /\ (forall id, preserves_state_on_error (getVehicleInspections id))
  /\ preserves_state_on_error getInspectionReport.
Proof.
  repeat apply conj.
  - apply createVehicle_preserves.
  - apply updateVehicle_preserves.
  - apply deleteVehicle_preserves.
  - apply createInspector_preserves.
  - apply updateInspector_preserves.
  - apply deleteInspector_preserves.
  - apply createInspection_preserves.
  - apply updateInspection_preserves.
  - apply createInspectionItems_preserves.
  - apply updateInspectionItem_preserves.
  - intros st e _. reflexivity.
  - intros id st e _. unfold getVehicleById. unfold_storage.
    destruct (filter _ (vehicles st)); reflexivity.
  - intros collation_le st e _. reflexivity.
  - intros id st e _. unfold getInspectorById. unfold_storage.
    destruct (firstn 1 _); reflexivity.
  - intros st e _. reflexivity.
  - intros id st e _. apply getInspectionDetails_reads.
  - intros id st e _. apply getVehicleInspections_reads.
  - intros st e _. now rewrite getInspectionReport_eq.
Qed.

Lemma sample_store_integrity : referential_integrity sample_store.
Proof.
  unfold referential_integrity. cbn. repeat apply conj.
  - repeat constructor; cbn; intuition discriminate.
  - repeat constructor; cbn; intuition discriminate.
  - intros i [<-|[<-|[]]]; cbn; split; eauto 6.
Qed.

Lemma getInspectionReport_correct_witness :
  exists report,
    getInspectionReport sample_store = (Ok report, sample_store)
    /\ total_inspections report = 2%Z
    /\ completed_inspections report = 1%Z
    /\ pending_inspections report = 1%Z.
Proof.
  destruct (getInspectionReport_correct sample_store sample_store_integrity)
    as [report [Hrun [Htotal [Hdone [Hpending _]]]]].
  exists report. repeat apply conj.
  - exact Hrun.
  - rewrite Htotal. reflexivity.
  - rewrite Hdone. reflexivity.
  - rewrite Hpending, Htotal, Hdone. reflexivity.
Defined.

Lemma handlers_preserve_state_on_error_witness :
  snd (updateInspection
         {| ui_id := 99999; ui_completed := Some true; ui_notes := Undefined |}
         7000 sample_store)
  = sample_store.
Proof.
  destruct handlers_preserve_state_on_error
    as (_ & _ & _ & _ & _ & _ & _ & Hupdate & _).
  eapply (Hupdate _ _ sample_store). cbv. reflexivity.
Defined.

(** * Creating inspections and items *)

Lemma is_empty_filter_none {A} (f : A -> bool) (l : list A) :
  (forall x, In x l -> f x = false) -> filter f l = [].
Proof.
  induction l as [|x l IH]; simpl; intros H.
  - reflexivity.
  - rewrite (H x (or_introl eq_refl)). apply IH. intros y Hy. apply H. now right.
Qed.

Lemma is_empty_filter_some {A} (f : A -> bool) (l : list A) :
  (exists x, In x l /\ f x = true) -> is_empty (filter f l) = false.
Proof.
  intros [x [Hin Hf]].
  destruct (filter f l) eqn:Hsel; [|reflexivity].
  rewrite (filter_nil_none f l Hsel x Hin) in Hf. discriminate.
Qed.

Lemma no_vehicle_with_id (id : Z) (st : State) :
  (forall v, In v (vehicles st) -> Vehicle.id v <> id) ->
  filter (fun v => Vehicle.id v =? id)%Z (vehicles st) = [].
Proof.
  intros H. apply is_empty_filter_none. intros v Hv. apply Z.eqb_neq. now apply H.
Qed.

Lemma some_vehicle_with_id (id : Z) (st : State) :
  (exists v, In v (vehicles st) /\ Vehicle.id v = id) ->
  is_empty (filter (fun v => Vehicle.id v =? id)%Z (vehicles st)) = false.
Proof.
  intros [v [Hin Hid]]. apply is_empty_filter_some. exists v.
  split; [assumption|]. now apply Z.eqb_eq.
Qed.

Lemma no_inspector_with_id (id : Z) (st : State) :
  (forall p, In p (inspectors st) -> Inspector.id p <> id) ->
  filter (fun p => Inspector.id p =? id)%Z (inspectors st) = [].
Proof.
  intros H. apply is_empty_filter_none. intros p Hp. apply Z.eqb_neq. now apply H.
Qed.

Lemma some_inspector_with_id (id : Z) (st : State) :
  (exists p, In p (inspectors st) /\ Inspector.id p = id) ->
  is_empty (filter (fun p => Inspector.id p =? id)%Z (inspectors st)) = false.
Proof.
  intros [p [Hin Hid]]. apply is_empty_filter_some. exists p.
  split; [assumption|]. now apply Z.eqb_eq.
Qed.


Lemma some_inspection_with_id (id : Z) (st : State) :
  (exists i, In i (inspections st) /\ Inspection.id i = id) ->
  is_empty (filter (fun i => Inspection.id i =? id)%Z (inspections st)) = false.
Proof.
  intros [i [Hin Hid]]. apply is_empty_filter_some. exists i.
  split; [assumption|]. now apply Z.eqb_eq.
Qed.



Lemma number_items_rows (inspection_id : Z) (now : Date) (items : list ItemInput) :
  forall seq,
    Forall2
      (fun item row =>
         InspectionItem.inspection_id row = inspection_id
         /\ InspectionItem.item_name row = ii_item_name item
         /\ InspectionItem.status row = ii_status item
         /\ InspectionItem.comments row = or_null (ii_comments item)
         /\ InspectionItem.created_at row = now
         /\ InspectionItem.updated_at row = now)
      items
      (number_items seq now
         (map (fun item =>
                 {| iv_inspection_id := inspection_id;
                    iv_item_name := ii_item_name item;
                    iv_status := ii_status item;
                    iv_comments := or_null (ii_comments item) |})
            items)).
Proof.
  induction items as [|item items IH]; intros seq; simpl; constructor.
  - cbn. tauto.
  - apply IH.
Qed.




(** * Deleting an inspector *)

Lemma to_uint_not_nil (n : nat) : Nat.to_uint n <> Nil.
Proof.
  intros H. pose proof (DecimalNat.Unsigned.to_of (Nat.to_uint n)) as Hnorm.
  rewrite DecimalNat.Unsigned.of_to, H in Hnorm. discriminate.
Qed.

(** The decimal numeral printed for an array length reads back as it. *)
Lemma show_nat_reads_back (n : nat) :
  option_map Nat.of_uint (NilZero.uint_of_string (show_nat n)) = Some n.
Proof.
  unfold show_nat. rewrite NilZero.usu by apply to_uint_not_nil.
  simpl. now rewrite DecimalNat.Unsigned.of_to.
Qed.

(** C7: [deleteInspector] throws not-found when no inspector has the id;
    when the inspector exists and N >= 1 inspections reference it, throws
    with a message that carries N in decimal and deletes nothing; when no
    inspection references it, removes the inspector and acknowledges. *)
Theorem deleteInspector_outcome (id : Z) (st : State) :
  let N :=
    List.length (filter (fun i => Inspection.inspector_id i =? id)%Z (inspections st)) in
  ((forall p, In p (inspectors st) -> Inspector.id p <> id) ->
   deleteInspector id st
   = (Throw (NotFound ("Inspector with id " ++ show_Z id ++ " not found")), st))
  /\ ((exists p, In p (inspectors st) /\ Inspector.id p = id) ->
      (1 <= N)%nat ->
      deleteInspector id st
      = (Throw (ReferentialIntegrity
                  ("Cannot delete inspector with id " ++ show_Z id
                   ++ " because they have " ++ show_nat N
                   ++ " associated inspection(s)")), st)
      /\ option_map Nat.of_uint (NilZero.uint_of_string (show_nat N)) = Some N)
  /\ ((exists p, In p (inspectors st) /\ Inspector.id p = id) ->
      N = 0%nat ->
      exists st',
        deleteInspector id st = (Ok true, st')
        /\ (forall p, In p (inspectors st') -> Inspector.id p <> id)
        /\ (forall p, Inspector.id p <> id ->
              (In p (inspectors st) <-> In p (inspectors st')))
        /\ vehicles st' = vehicles st
        /\ inspections st' = inspections st
        /\ inspection_items st' = inspection_items st).
Proof.
  intros N. unfold deleteInspector. unfold_storage. repeat apply conj.
  - intros Hp. now rewrite (no_inspector_with_id _ _ Hp).
  - intros Hp HN. rewrite (some_inspector_with_id _ _ Hp). subst N.
    split; [|apply show_nat_reads_back].
    destruct (filter _ (inspections st)) as [|i rest]; [simpl in HN; lia|].
    reflexivity.
  - intros Hp HN. rewrite (some_inspector_with_id _ _ Hp). subst N.
    apply length_zero_iff_nil in HN. rewrite HN. cbn [is_empty negb].
    eexists. split; [reflexivity|]. cbn. repeat apply conj; try reflexivity.
    + intros p Hin. apply filter_In in Hin. destruct Hin as [_ Hne].
      apply negb_true_iff, Z.eqb_neq in Hne. exact Hne.
    + intros p Hne. rewrite filter_In. split; [|tauto].
      intros Hin. split; [assumption|].
      apply negb_true_iff, Z.eqb_neq. exact Hne.
Qed.

Lemma deleteInspector_outcome_witness :
  deleteInspector 1 sample_store
  = (Throw (ReferentialIntegrity
              "Cannot delete inspector with id 1 because they have 2 associated inspection(s)"),
     sample_store).
Proof.
  destruct (deleteInspector_outcome 1 sample_store) as [_ [Hguard _]].
  destruct Hguard as [Hrun _].
  - exists sample_inspector1. cbn. auto.
  - cbn. lia.
  - rewrite Hrun. reflexivity.
Defined.

(** * Empty strings at creation *)

(** C10: an empty string given for [notes] (or for an item's [comments]) at
    creation is stored as [null], not as the empty string.  When the
    vehicle and the inspector exist, [createInspection] with [notes = ""]
    appends to the inspections table exactly one row, the one it returns,
    and [notes] of that row is [null]; when the inspection exists and
    [items] is not empty, [createInspectionItems] appends to the
    inspection_items table one row per item, the rows it returns, and the
    row of every item given with [comments = ""] has [comments = null].
    In both handlers the call with the empty string returns the same value
    and leaves the same store as the call with the property omitted. *)
Theorem empty_string_stored_as_null :
  (forall input now st,
      ci_notes input = Value EmptyString ->
      (exists v, In v (vehicles st) /\ Vehicle.id v = ci_vehicle_id input) ->
      (exists p, In p (inspectors st) /\ Inspector.id p = ci_inspector_id input) ->
      exists row,
        createInspection input now st
        = (Ok (Some row),
           with_inspections st (inspections st ++ [row]) (inspections_seq st + 1))
        /\ inspections (snd (createInspection input now st))
           = (inspections st ++ [row])%list
        /\ Inspection.id row = inspections_seq st
        /\ Inspection.notes row = None)
  /\ (forall vehicle_id inspector_id inspection_date completed now st,
        createInspection
          {| ci_vehicle_id := vehicle_id; ci_inspector_id := inspector_id;
             ci_inspection_date := inspection_date; ci_completed := completed;
             ci_notes := Value EmptyString |} now st
        = createInspection
            {| ci_vehicle_id := vehicle_id; ci_inspector_id := inspector_id;
               ci_inspection_date := inspection_date; ci_completed := completed;
               ci_notes := Undefined |} now st)
  /\ (forall input now st,
        (exists i, In i (inspections st) /\ Inspection.id i = cii_inspection_id input) ->
        cii_items input <> [] ->
        exists rows,
          createInspectionItems input now st
          = (Ok rows,
             with_inspection_items st (inspection_items st ++ rows)
               (inspection_items_seq st + Z.of_nat (List.length (cii_items input))))
          /\ inspection_items (snd (createInspectionItems input now st))
             = (inspection_items st ++ rows)%list
          /\ Forall2
               (fun item row =>
                  InspectionItem.item_name row = ii_item_name item
                  /\ InspectionItem.status row = ii_status item
                  /\ (ii_comments item = Value EmptyString ->
                      InspectionItem.comments row = None))
               (cii_items input) rows)
  /\ (forall inspection_id items items' now st,
        Forall2
          (fun given omitted =>
             ii_item_name omitted = ii_item_name given
             /\ ii_status omitted = ii_status given
             /\ (ii_comments omitted = ii_comments given
                 \/ (ii_comments given = Value EmptyString
                     /\ ii_comments omitted = Undefined)))
          items items' ->
        createInspectionItems
          {| cii_inspection_id := inspection_id; cii_items := items |} now st
        = createInspectionItems
            {| cii_inspection_id := inspection_id; cii_items := items' |} now st).
Proof.
  split; [|split; [|split]].
  - intros input now st Hnotes Hv Hp.
    unfold createInspection. unfold_storage.
    rewrite (some_vehicle_with_id _ _ Hv), (some_inspector_with_id _ _ Hp), Hnotes.
    eexists. split; [reflexivity|]. cbn. repeat apply conj; reflexivity.
  - reflexivity.
  - intros input now st Hi Hitems.
    unfold createInspectionItems. unfold_storage.
    rewrite (some_inspection_with_id _ _ Hi).
    destruct (cii_items input) as [|item items] eqn:Heq; [contradiction|].
    cbn [is_empty]. eexists. split; [|split].
    + rewrite length_map. reflexivity.
    + reflexivity.
    + eapply Forall2_impl; [|apply number_items_rows].
      intros it row (_ & Hname & Hstatus & Hcomments & _).
      repeat apply conj; try assumption.
      intros Hempty. rewrite Hcomments, Hempty. reflexivity.
  - intros inspection_id items items' now st Hsame.
    assert (Hvalues :
              map (fun item =>
                     {| iv_inspection_id := inspection_id;
                        iv_item_name := ii_item_name item;
                        iv_status := ii_status item;
                        iv_comments := or_null (ii_comments item) |}) items
              = map (fun item =>
                       {| iv_inspection_id := inspection_id;
                          iv_item_name := ii_item_name item;
                          iv_status := ii_status item;
                          iv_comments := or_null (ii_comments item) |}) items').
    { induction Hsame as [|given omitted l l' (Hname & Hstatus & Hcomments) _ IH];
        simpl; [reflexivity|].
      rewrite IH, Hname, Hstatus. do 2 f_equal.
      destruct Hcomments as [->|[-> ->]]; reflexivity. }
    assert (Hempty : is_empty items = is_empty items') by (destruct Hsame; reflexivity).
    unfold createInspectionItems. cbn [cii_inspection_id cii_items].
    rewrite Hvalues, Hempty. reflexivity.
Qed.

Lemma empty_string_stored_as_null_witness :
  (exists row,
      createInspection
        {| ci_vehicle_id := 1; ci_inspector_id := 1; ci_inspection_date := 9000;
           ci_completed := None; ci_notes := Value EmptyString |}
        9500 sample_store
      = (Ok (Some row),
         with_inspections sample_store [sample_inspection1; sample_inspection2; row] 4)
      /\ Inspection.id row = 3 /\ Inspection.notes row = None)
  /\ (exists row,
        createInspectionItems
          {| cii_inspection_id := 1;
             cii_items := [ {| ii_item_name := "Brakes"; ii_status := pass;
                               ii_comments := Value EmptyString |} ] |}
          9500 sample_store
        = (Ok [row], with_inspection_items sample_store [sample_item1; row] 3)
        /\ InspectionItem.item_name row = "Brakes"
        /\ InspectionItem.comments row = None)
  /\ createInspectionItems
       {| cii_inspection_id := 1;
          cii_items := [ {| ii_item_name := "Brakes"; ii_status := pass;
                            ii_comments := Value EmptyString |};
                         {| ii_item_name := "Lights"; ii_status := fail;
                            ii_comments := Value "Left bulb out" |} ] |}
       9500 sample_store
     = createInspectionItems
         {| cii_inspection_id := 1;
            cii_items := [ {| ii_item_name := "Brakes"; ii_status := pass;
                              ii_comments := Undefined |};
                           {| ii_item_name := "Lights"; ii_status := fail;
                              ii_comments := Value "Left bulb out" |} ] |}
         9500 sample_store.
Proof.
  destruct empty_string_stored_as_null as [Hnotes [_ [Hitems Hsame]]].
  split; [|split].
  - edestruct (Hnotes
                 {| ci_vehicle_id := 1; ci_inspector_id := 1;
                    ci_inspection_date := 9000; ci_completed := None;
                    ci_notes := Value EmptyString |} 9500 sample_store)
      as [row [Hrun [_ [Hid Hnull]]]].
    + reflexivity.
    + exists sample_vehicle1. cbn. auto.
    + exists sample_inspector1. cbn. auto.
    + exists row. rewrite Hrun. repeat apply conj; [reflexivity|exact Hid|exact Hnull].
  - edestruct (Hitems
                 {| cii_inspection_id := 1;
                    cii_items := [ {| ii_item_name := "Brakes"; ii_status := pass;
                                      ii_comments := Value EmptyString |} ] |}
                 9500 sample_store)
      as [rows [Hrun [_ Hrows]]].
    + exists sample_inspection1. cbn. auto.
    + discriminate.
    + cbn [cii_items] in Hrows.
      inversion Hrows as [|item row items rest [Hname [_ Hnull]] Hrest]; subst.
      inversion Hrest; subst.
      exists row. rewrite Hrun.
      repeat apply conj; [reflexivity|exact Hname|exact (Hnull eq_refl)].
  - apply Hsame. constructor; [|constructor; [|constructor]].
    + cbn. split; [reflexivity|]. split; [reflexivity|]. right. now split.
    + cbn. split; [reflexivity|]. split; [reflexivity|]. now left.
Defined.

(** * Creating a vehicle *)


Lemma createVehicle_first_match uq input now st first rest :
  filter (fun v => (Vehicle.vin v =? cv_vin input)
                   || (Vehicle.license_plate v =? cv_license_plate input))
    (vehicles st) = first :: rest ->
  createVehicle uq input now st
  = (Throw (Conflict
              (if Vehicle.vin first =? cv_vin input
               then "Vehicle with VIN " ++ cv_vin input ++ " already exists"
               else "Vehicle with license plate " ++ cv_license_plate input
                    ++ " already exists")), st).
Proof.
  intros Hsel. unfold createVehicle. unfold_storage. rewrite Hsel.
  apply first_match_holds in Hsel. destruct Hsel as [Hmatch _].
  apply orb_true_iff in Hmatch.
  destruct (Vehicle.vin first =? cv_vin input); [reflexivity|].
  destruct (Vehicle.license_plate first =? cv_license_plate input); [reflexivity|].
  destruct Hmatch; discriminate.
Qed.

Lemma createVehicle_no_match uq input now st :
  filter (fun v => (Vehicle.vin v =? cv_vin input)
                   || (Vehicle.license_plate v =? cv_license_plate input))
    (vehicles st) = [] ->
  createVehicle uq input now st
  = (let row :=
       Vehicle.mk (vehicles_seq st) (cv_make input) (cv_model input) (cv_year input)
         (cv_vin input) (cv_license_plate input) now now in
     (Ok (Some row),
      with_vehicles st (vehicles st ++ [row]) (vehicles_seq st + 1))).
Proof.
  intros Hsel. unfold createVehicle. unfold_storage. rewrite Hsel.
  apply no_key_taken in Hsel. destruct Hsel as [Hvin Hplate].
  unfold vin_taken, license_plate_taken. cbn [Vehicle.vin Vehicle.license_plate].
  rewrite Hvin, Hplate, !andb_false_r. reflexivity.
Qed.




(** * Sparse patches *)

Lemma updateVehicle_success uq input now st r st' :
  updateVehicle uq input now st = (Ok r, st') ->
  let updateData :=
    {| vu_make := uv_make input; vu_model := uv_model input;
       vu_year := uv_year input; vu_vin := uv_vin input;
       vu_license_plate := uv_license_plate input; vu_updated_at := now |} in
  exists old rest,
    filter (fun v => Vehicle.id v =? uv_id input)%Z (vehicles st) = old :: rest
    /\ r = Some (set_vehicle updateData old)
    /\ st' = with_vehicles st
               (update_rows (fun v => Vehicle.id v =? uv_id input)%Z
                  (set_vehicle updateData) (vehicles st))
               (vehicles_seq st).
Proof.
  unfold updateVehicle. unfold_storage. cbv beta.
  destruct (filter (fun v => Vehicle.id v =? uv_id input)%Z (vehicles st))
    as [|old rest] eqn:Hsel; [discriminate|].
  cbn [is_empty map hd_error].
  repeat (case_step; cbn [fst snd]); rewrite ?Hsel; cbn [map hd_error];
    intros H; try discriminate H;
    inversion H; subst; exists old, rest; repeat apply conj; reflexivity.
Qed.

Lemma updateInspector_success uq input now st r st' :
  updateInspector uq input now st = (Ok r, st') ->
  let updateData :=
    {| pu_name := up_name input; pu_employee_id := up_employee_id input;
       pu_updated_at := now |} in
  exists old rest,
    filter (fun p => Inspector.id p =? up_id input)%Z (inspectors st) = old :: rest
    /\ r = Some (set_inspector updateData old)
    /\ st' = with_inspectors st
               (update_rows (fun p => Inspector.id p =? up_id input)%Z
                  (set_inspector updateData) (inspectors st))
               (inspectors_seq st).
Proof.
  unfold updateInspector. unfold_storage. cbv beta.
  destruct (filter (fun p => Inspector.id p =? up_id input)%Z (inspectors st))
    as [|old rest] eqn:Hsel; [discriminate|].
  cbn [is_empty map hd_error].
  repeat (case_step; cbn [fst snd]); rewrite ?Hsel; cbn [map hd_error];
    intros H; try discriminate H;
    inversion H; subst; exists old, rest; repeat apply conj; reflexivity.
Qed.

Lemma updateInspection_success input now st r st' :
  updateInspection input now st = (Ok r, st') ->
  let updateData :=
    {| iu_completed := ui_completed input; iu_notes := ui_notes input;
       iu_updated_at := now |} in
  exists old rest,
    filter (fun i => Inspection.id i =? ui_id input)%Z (inspections st) = old :: rest
    /\ r = Some (set_inspection updateData old)
    /\ st' = with_inspections st
               (update_rows (fun i => Inspection.id i =? ui_id input)%Z
                  (set_inspection updateData) (inspections st))
               (inspections_seq st).
Proof.
  unfold updateInspection. unfold_storage. cbv beta.
  destruct (filter (fun i => Inspection.id i =? ui_id input)%Z (inspections st))
    as [|old rest] eqn:Hsel; [discriminate|].
  cbn. intros H. inversion H; subst.
  exists old, rest. repeat apply conj; reflexivity.
Qed.

Lemma updateInspectionItem_success input now st r st' :
  updateInspectionItem input now st = (Ok r, st') ->
  let updateData :=
    {| tu_status := uii_status input; tu_comments := uii_comments input;
       tu_updated_at := now |} in
  exists old rest,
    filter (fun t => InspectionItem.id t =? uii_id input)%Z (inspection_items st)
    = old :: rest
    /\ r = Some (set_inspection_item updateData old)
    /\ st' = with_inspection_items st
               (update_rows (fun t => InspectionItem.id t =? uii_id input)%Z
                  (set_inspection_item updateData) (inspection_items st))
               (inspection_items_seq st).
Proof.
  unfold updateInspectionItem. unfold_storage. cbv beta.
  destruct (filter (fun t => InspectionItem.id t =? uii_id input)%Z
              (inspection_items st))
    as [|old rest] eqn:Hsel; [discriminate|].
  cbn. intros H. inversion H; subst.
  exists old, rest. repeat apply conj; reflexivity.
Qed.




(** * The uniqueness check of [updateVehicle] *)

(** With one key in the patch the check does find the other row. *)
Lemma updateVehicle_vin_only_conflict uq input now st vin :
  (exists v, In v (vehicles st) /\ Vehicle.id v = uv_id input) ->
  uv_vin input = Some vin -> truthy vin = true -> uv_license_plate input = None ->
  (exists other, In other (vehicles st)
                 /\ Vehicle.id other <> uv_id input /\ Vehicle.vin other = vin) ->
  updateVehicle uq input now st
  = (Throw (Conflict ("VIN " ++ vin ++ " is already in use by another vehicle")), st).
Proof.
  intros Hexists Hvin Htruthy Hplate [other [Hin [Hid Hsame]]].
  unfold updateVehicle. unfold_storage.
  rewrite (some_vehicle_with_id _ _ Hexists).
  unfold uniquenessConditions. rewrite Hvin, Hplate. cbn [truthy_opt].
  rewrite Htruthy. cbn [Datatypes.app is_empty negb andb].
  destruct (filter _ (vehicles st)) as [|conflict rest] eqn:Hsel.
  - exfalso. pose proof (filter_nil_none _ _ Hsel other Hin) as Hf.
    cbn in Hf. apply Z.eqb_neq in Hid. apply String.eqb_eq in Hsame.
    rewrite Hid, Hsame in Hf. discriminate.
  - apply first_match_holds in Hsel. destruct Hsel as [Hmatch _].
    cbn in Hmatch. apply andb_true_iff in Hmatch. destruct Hmatch as [_ Hmatch].
    rewrite andb_true_r in Hmatch. cbn [strict_eq show_opt andb].
    rewrite Hmatch. reflexivity.
Qed.

(** C1 at the failing inputs. The patches [crossed_patch] (VIN of the
    first vehicle, plate of the second) and [half_crossed_patch] (VIN of the
    first vehicle, a free plate) both collide with another row, yet the
    check, which conjoins its conditions, finds no row and throws no
    conflict error: the update statement is issued. A store that enforces
    the unique constraints refuses it with its own constraint violation; a
    store that does not writes the duplicate VIN. *)
Theorem updateVehicle_conjoined_check_misses_collision :
  (In sample_vehicle1 (vehicles sample_store)
   /\ Vehicle.id sample_vehicle1 <> uv_id crossed_patch
   /\ uv_vin crossed_patch = Some (Vehicle.vin sample_vehicle1))
  /\ (In sample_vehicle2 (vehicles sample_store)
      /\ Vehicle.id sample_vehicle2 <> uv_id crossed_patch
      /\ uv_license_plate crossed_patch = Some (Vehicle.license_plate sample_vehicle2))
  /\ updateVehicle true crossed_patch 9500 sample_store
     = (Throw (ConstraintViolation "vehicles_vin_unique"), sample_store)
  /\ updateVehicle true half_crossed_patch 9500 sample_store
     = (Throw (ConstraintViolation "vehicles_vin_unique"), sample_store)
  /\ (exists new st',
        updateVehicle false crossed_patch 9500 sample_store = (Ok (Some new), st')
        /\ In new (vehicles st') /\ In sample_vehicle1 (vehicles st')
        /\ Vehicle.id new = 3%Z
        /\ Vehicle.vin new = Vehicle.vin sample_vehicle1
        /\ st' <> sample_store)
  /\ (exists new st',
        updateVehicle false half_crossed_patch 9500 sample_store = (Ok (Some new), st')
        /\ In new (vehicles st') /\ In sample_vehicle1 (vehicles st')
        /\ Vehicle.id new = 3%Z
        /\ Vehicle.vin new = Vehicle.vin sample_vehicle1
        /\ st' <> sample_store)
  /\ (forall uq message,
        fst (updateVehicle uq crossed_patch 9500 sample_store)
        <> Throw (Conflict message)
        /\ fst (updateVehicle uq half_crossed_patch 9500 sample_store)
           <> Throw (Conflict message)).
Proof.
  repeat apply conj; try reflexivity.
  - cbn. auto.
  - cbn. discriminate.
  - cbn. auto.
  - cbn. discriminate.
  - eexists. eexists. split; [cbv; reflexivity|].
    repeat apply conj; try reflexivity.
    + cbn. auto.
    + cbn. auto.
    + cbv. discriminate.
  - eexists. eexists. split; [cbv; reflexivity|].
    repeat apply conj; try reflexivity.
    + cbn. auto.
    + cbn. auto.
    + cbv. discriminate.
  - intros uq message. destruct uq; split; cbv; discriminate.
Qed.

(** * The handlers keep the references intact *)

Lemma perm_key_update_rows {A K} (key : A -> K) (cond : A -> bool) (set : A -> A)
    (rows : list A) :
  (forall x, key (set x) = key x) ->
  Permutation (map key (update_rows cond set rows)) (map key rows).
Proof.
  intros Hkey. unfold update_rows. rewrite map_app, map_map.
  rewrite (map_ext (fun x => key (set x)) key Hkey).
  rewrite <- map_app. apply Permutation_map.
  induction rows as [|a rows IH]; simpl.
  - constructor.
  - destruct (cond a); simpl.
    + apply Permutation_sym, Permutation_cons_app. now apply Permutation_sym.
    + now constructor.
Qed.

Lemma length_update_rows {A} (cond : A -> bool) (set : A -> A) (rows : list A) :
  List.length (update_rows cond set rows) = List.length rows.
Proof.
  pose proof (perm_key_update_rows (fun _ : A => tt) cond set rows
                (fun _ => eq_refl)) as H.
  apply Permutation_length in H. now rewrite !length_map in H.
Qed.

Lemma count_key_update_rows {A} (key : A -> Z) (cond : A -> bool) (set : A -> A)
    (rows : list A) (k : Z) :
  (forall x, key (set x) = key x) ->
  List.length (filter (fun r => key r =? k)%Z (update_rows cond set rows))
  = List.length (filter (fun r => key r =? k)%Z rows).
Proof.
  intros Hkey.
  pose proof (perm_key_update_rows key cond set rows Hkey) as H.
  assert (Hcount : forall l : list A,
             List.length (filter (fun r => key r =? k)%Z l)
             = List.length (filter (fun z => z =? k)%Z (map key l))).
  { induction l as [|a l IH]; simpl; [reflexivity|].
    destruct (key a =? k)%Z; simpl; now rewrite IH. }
  rewrite !Hcount.
  apply Permutation_length.
  clear Hcount. induction H; simpl.
  - constructor.
  - destruct (x =? k)%Z; [now constructor|assumption].
  - destruct (x =? k)%Z, (y =? k)%Z; try reflexivity. apply perm_swap.
  - eapply Permutation_trans; eassumption.
Qed.

Lemma in_update_rows_inv {A} (cond : A -> bool) (set : A -> A) (rows : list A) (r : A) :
  In r (update_rows cond set rows) ->
  exists x, In x rows /\ (r = x \/ r = set x).
Proof.
  unfold update_rows. intros H. apply in_app_or in H. destruct H as [H|H].
  - apply filter_In in H. exists r. tauto.
  - apply in_map_iff in H. destruct H as [x [Hr Hx]].
    apply filter_In in Hx. exists x. split; [tauto|]. now right.
Qed.

Lemma in_update_rows_key {A K} (key : A -> K) (cond : A -> bool) (set : A -> A)
    (rows : list A) (x : A) :
  (forall y, key (set y) = key y) -> In x rows ->
  exists r, In r (update_rows cond set rows) /\ key r = key x.
Proof.
  intros Hkey Hx. unfold update_rows. destruct (cond x) eqn:Hc.
  - exists (set x). split; [|apply Hkey].
    apply in_or_app. right. apply in_map. now apply filter_In.
  - exists x. split; [|reflexivity].
    apply in_or_app. left. apply filter_In. now rewrite Hc.
Qed.

Lemma NoDup_map_filter {A K} (key : A -> K) (f : A -> bool) (l : list A) :
  NoDup (map key l) -> NoDup (map key (filter f l)).
Proof.
  induction l as [|x l IH]; simpl; intros Hnd.
  - constructor.
  - inversion Hnd as [|? ? Hnotin Hnd']; subst.
    destruct (f x); simpl; [|now apply IH].
    constructor; [|now apply IH].
    intros Hin. apply Hnotin. apply in_map_iff in Hin.
    destruct Hin as [y [Hy Hin]]. apply filter_In in Hin.
    apply in_map_iff. exists y. tauto.
Qed.

Lemma NoDup_map_snoc {A} (key : A -> Z) (l : list A) (row : A) :
  NoDup (map key l) -> (forall x, In x l -> (key x < key row)%Z) ->
  NoDup (map key (l ++ [row])).
Proof.
  intros Hnd Hlt. rewrite map_app. simpl.
  apply NoDup_app; [assumption|repeat constructor; intros []|].
  intros k Hk [<-|[]]. apply in_map_iff in Hk. destruct Hk as [x [Hx Hin]].
  specialize (Hlt x Hin). lia.
Qed.

Lemma empty_store_invariant : store_invariant empty_store.
Proof.
  unfold store_invariant, referential_integrity. cbn.
  repeat apply conj; try (now constructor); intros ? [].
Qed.

Lemma invariant_update_vehicles st cond u :
  store_invariant st ->
  store_invariant
    (with_vehicles st (update_rows cond (set_vehicle u) (vehicles st)) (vehicles_seq st)).
Proof.
  intros [[Hv [Hp Href]] [Hvs Hps]].
  unfold store_invariant, referential_integrity. cbn. repeat apply conj.
  - apply (Permutation_NoDup (l := map Vehicle.id (vehicles st))); [|assumption].
    apply Permutation_sym, perm_key_update_rows. reflexivity.
  - exact Hp.
  - intros i Hi. destruct (Href i Hi) as [[v [Hvin Hvid]] Hinsp]. split; [|exact Hinsp].
    destruct (in_update_rows_key Vehicle.id cond (set_vehicle u) _ v
                (fun _ => eq_refl) Hvin) as [r [Hr Hrid]].
    exists r. split; [assumption|congruence].
  - intros v Hin. apply in_update_rows_inv in Hin.
    destruct Hin as [x [Hx [->| ->]]]; apply (Hvs x Hx).
  - exact Hps.
Qed.

Lemma invariant_update_inspectors st cond u :
  store_invariant st ->
  store_invariant
    (with_inspectors st (update_rows cond (set_inspector u) (inspectors st))
       (inspectors_seq st)).
Proof.
  intros [[Hv [Hp Href]] [Hvs Hps]].
  unfold store_invariant, referential_integrity. cbn. repeat apply conj.
  - exact Hv.
  - apply (Permutation_NoDup (l := map Inspector.id (inspectors st))); [|assumption].
    apply Permutation_sym, perm_key_update_rows. reflexivity.
  - intros i Hi. destruct (Href i Hi) as [Hveh [p [Hpin Hpid]]]. split; [exact Hveh|].
    destruct (in_update_rows_key Inspector.id cond (set_inspector u) _ p
                (fun _ => eq_refl) Hpin) as [r [Hr Hrid]].
    exists r. split; [assumption|congruence].
  - exact Hvs.
  - intros p Hin. apply in_update_rows_inv in Hin.
    destruct Hin as [x [Hx [->| ->]]]; apply (Hps x Hx).
Qed.

Lemma invariant_more_vehicles st rows :
  store_invariant st ->
  (rows = [] \/ exists row, rows = [row] /\ Vehicle.id row = vehicles_seq st) ->
  store_invariant (with_vehicles st (vehicles st ++ rows) (vehicles_seq st + 1)).
Proof.
  intros [[Hv [Hp Href]] [Hvs Hps]] Hrows.
  unfold store_invariant, referential_integrity. cbn. repeat apply conj.
  - destruct Hrows as [->|[row [-> Hid]]]; [now rewrite app_nil_r|].
    apply NoDup_map_snoc; [assumption|]. intros x Hx. rewrite Hid. now apply Hvs.
  - exact Hp.
  - intros i Hi. destruct (Href i Hi) as [[v [Hvin Hvid]] Hinsp]. split; [|exact Hinsp].
    exists v. split; [apply in_or_app; now left|assumption].
  - intros v Hin. apply in_app_or in Hin. destruct Hin as [Hin|Hin].
    + specialize (Hvs v Hin). lia.
    + destruct Hrows as [->|[row [-> Hid]]]; [contradiction|].
      destruct Hin as [<-|[]]. lia.
  - exact Hps.
Qed.

Lemma invariant_more_inspectors st rows :
  store_invariant st ->
  (rows = [] \/ exists row, rows = [row] /\ Inspector.id row = inspectors_seq st) ->
  store_invariant (with_inspectors st (inspectors st ++ rows) (inspectors_seq st + 1)).
Proof.
  intros [[Hv [Hp Href]] [Hvs Hps]] Hrows.
  unfold store_invariant, referential_integrity. cbn. repeat apply conj.
  - exact Hv.
  - destruct Hrows as [->|[row [-> Hid]]]; [now rewrite app_nil_r|].
    apply NoDup_map_snoc; [assumption|]. intros x Hx. rewrite Hid. now apply Hps.
  - intros i Hi. destruct (Href i Hi) as [Hveh [p [Hpin Hpid]]]. split; [exact Hveh|].
    exists p. split; [apply in_or_app; now left|assumption].
  - exact Hvs.
  - intros p Hin. apply in_app_or in Hin. destruct Hin as [Hin|Hin].
    + specialize (Hps p Hin). lia.
    + destruct Hrows as [->|[row [-> Hid]]]; [contradiction|].
      destruct Hin as [<-|[]]. lia.
Qed.

Lemma invariant_items st rows seq :
  store_invariant st -> store_invariant (with_inspection_items st rows seq).
Proof. intros H. exact H. Qed.

Lemma invariant_update_inspections st cond u seq :
  store_invariant st ->
  store_invariant
    (with_inspections st (update_rows cond (set_inspection u) (inspections st)) seq).
Proof.
  intros [[Hv [Hp Href]] [Hvs Hps]].
  unfold store_invariant, referential_integrity. cbn. repeat apply conj; try assumption.
  intros i Hi. apply in_update_rows_inv in Hi.
  destruct Hi as [x [Hx [->| ->]]]; apply (Href x Hx).
Qed.

Lemma invariant_new_inspection st row seq :
  store_invariant st ->
  (exists v, In v (vehicles st) /\ Vehicle.id v = Inspection.vehicle_id row) ->
  (exists p, In p (inspectors st) /\ Inspector.id p = Inspection.inspector_id row) ->
  store_invariant (with_inspections st (inspections st ++ [row]) seq).
Proof.
  intros [[Hv [Hp Href]] [Hvs Hps]] Hveh Hinsp.
  unfold store_invariant, referential_integrity. cbn. repeat apply conj; try assumption.
  intros i Hi. apply in_app_or in Hi. destruct Hi as [Hi|[<-|[]]].
  - apply (Href i Hi).
  - split; assumption.
Qed.

Lemma filter_some_inv {A} (f : A -> bool) (l : list A) :
  is_empty (filter f l) = false -> exists x, In x l /\ f x = true.
Proof.
  destruct (filter f l) as [|x rest] eqn:Hsel; [discriminate|]. intros _.
  exists x. apply first_match_holds in Hsel. tauto.
Qed.

Lemma invariant_delete_vehicles st cond :
  store_invariant st -> store_invariant (snd (delete_vehicles cond st)).
Proof.
  intros [[Hv [Hp Href]] [Hvs Hps]].
  unfold store_invariant, referential_integrity, delete_vehicles. cbn.
  repeat apply conj.
  - now apply NoDup_map_filter.
  - exact Hp.
  - intros i Hi. apply filter_In in Hi. destruct Hi as [Hi Hkept].
    destruct (Href i Hi) as [[v [Hvin Hvid]] Hinsp]. split; [|exact Hinsp].
    exists v. split; [|exact Hvid]. apply filter_In. split; [exact Hvin|].
    destruct (cond v) eqn:Hc; [|reflexivity]. exfalso.
    apply negb_true_iff in Hkept.
    assert (Hgone : existsb (Z.eqb (Inspection.vehicle_id i))
                      (map Vehicle.id (filter cond (vehicles st))) = true).
    { apply existsb_exists. exists (Vehicle.id v). split.
      - apply in_map. apply filter_In. now split.
      - apply Z.eqb_eq. now symmetry. }
    congruence.
  - intros v Hin. apply filter_In in Hin. now apply Hvs.
  - exact Hps.
Qed.

Lemma invariant_delete_inspector st id :
  store_invariant st ->
  filter (fun i => Inspection.inspector_id i =? id)%Z (inspections st) = [] ->
  store_invariant
    (with_inspectors st
       (filter (fun p => negb (Inspector.id p =? id)%Z) (inspectors st))
       (inspectors_seq st)).
Proof.
  intros [[Hv [Hp Href]] [Hvs Hps]] Hfree.
  unfold store_invariant, referential_integrity. cbn. repeat apply conj.
  - exact Hv.
  - now apply NoDup_map_filter.
  - intros i Hi. destruct (Href i Hi) as [Hveh [p [Hpin Hpid]]]. split; [exact Hveh|].
    exists p. split; [|exact Hpid]. apply filter_In. split; [exact Hpin|].
    pose proof (filter_nil_none _ _ Hfree i Hi) as Hne. cbn in Hne.
    rewrite Hpid. now rewrite Hne.
  - exact Hvs.
  - intros p Hin. apply filter_In in Hin. now apply Hps.
Qed.

(** X24: every store reached from [empty_store] through the handlers satisfies
    [store_invariant], hence the [referential_integrity] that the report
    relies on: each writing handler hands the invariant on, whether it
    returns or throws. *)
Theorem handlers_keep_store_invariant :
  store_invariant empty_store
  /\ (forall uq input now st,
        store_invariant st -> store_invariant (snd (createVehicle uq input now st)))
  /\ (forall uq input now st,
        store_invariant st -> store_invariant (snd (updateVehicle uq input now st)))
  /\ (forall id st, store_invariant st -> store_invariant (snd (deleteVehicle id st)))
  /\ (forall uq input now st,
        store_invariant st -> store_invariant (snd (createInspector uq input now st)))
  /\ (forall uq input now st,
        store_invariant st -> store_invariant (snd (updateInspector uq input now st)))
  /\ (forall id st, store_invariant st -> store_invariant (snd (deleteInspector id st)))
  /\ (forall input now st,
        store_invariant st -> store_invariant (snd (createInspection input now st)))
  /\ (forall input now st,
        store_invariant st -> store_invariant (snd (updateInspection input now st)))
  /\ (forall input now st,
        store_invariant st ->
        store_invariant (snd (createInspectionItems input now st)))
  /\ (forall input now st,
        store_invariant st ->
        store_invariant (snd (updateInspectionItem input now st))).
Proof.
  split; [apply empty_store_invariant|]. repeat apply conj.
  - intros uq input now st Hinv.
    destruct (filter (fun v => (Vehicle.vin v =? cv_vin input)
                               || (Vehicle.license_plate v =? cv_license_plate input))
                (vehicles st)) as [|first rest] eqn:Hsel.
    + rewrite (createVehicle_no_match uq input now st Hsel). cbn [snd].
      apply invariant_more_vehicles; [assumption|]. right. eexists.
      split; reflexivity.
    + now rewrite (createVehicle_first_match uq input now st first rest Hsel).
  - intros uq input now st Hinv.
    destruct (updateVehicle uq input now st) as [[r|e] st'] eqn:Hrun; cbn [snd].
    + apply updateVehicle_success in Hrun. destruct Hrun as (old & rest & _ & _ & ->).
      now apply invariant_update_vehicles.
    + pose proof (updateVehicle_preserves uq input now st e) as Hsame.
      rewrite Hrun in Hsame. cbn in Hsame. now rewrite Hsame.
  - intros id st Hinv. unfold deleteVehicle. unfold_storage.
    destruct (firstn 1 _); cbn [is_empty fst snd]; [assumption|].
    apply (invariant_delete_vehicles st _ Hinv).
  - intros uq input now st Hinv. unfold createInspector. unfold_storage.
    destruct (filter _ (inspectors st)) as [|existing rest] eqn:Hsel;
      [|assumption].
    apply existsb_filter_nil in Hsel.
    unfold employee_id_taken. cbn [Inspector.employee_id is_empty negb].
    rewrite Hsel, andb_false_r. cbn [snd].
    apply invariant_more_inspectors; [assumption|]. right. eexists.
    split; reflexivity.
  - intros uq input now st Hinv.
    destruct (updateInspector uq input now st) as [[r|e] st'] eqn:Hrun; cbn [snd].
    + apply updateInspector_success in Hrun.
      destruct Hrun as (old & rest & _ & _ & ->).
      now apply invariant_update_inspectors.
    + pose proof (updateInspector_preserves uq input now st e) as Hsame.
      rewrite Hrun in Hsame. cbn in Hsame. now rewrite Hsame.
  - intros id st Hinv. unfold deleteInspector. unfold_storage.
    destruct (filter _ (inspectors st)); cbn [is_empty fst snd]; [assumption|].
    destruct (filter _ (inspections st)) eqn:Hfree; cbn [is_empty negb fst snd];
      [|assumption].
    now apply invariant_delete_inspector.
  - intros input now st Hinv. unfold createInspection. unfold_storage.
    destruct (is_empty (filter _ (vehicles st))) eqn:Hveh; [assumption|].
    destruct (is_empty (filter _ (inspectors st))) eqn:Hinsp; [assumption|].
    cbn [snd fst]. apply filter_some_inv in Hveh, Hinsp.
    destruct Hveh as [v [Hv Hvid]]. destruct Hinsp as [p [Hp Hpid]].
    apply Z.eqb_eq in Hvid, Hpid.
    apply invariant_new_inspection; [assumption| |]; cbn; eauto.
  - intros input now st Hinv.
    destruct (updateInspection input now st) as [[r|e] st'] eqn:Hrun; cbn [snd].
    + apply updateInspection_success in Hrun.
      destruct Hrun as (old & rest & _ & _ & ->).
      now apply invariant_update_inspections.
    + pose proof (updateInspection_preserves input now st e) as Hsame.
      rewrite Hrun in Hsame. cbn in Hsame. now rewrite Hsame.
  - intros input now st Hinv.
    destruct (createInspectionItems input now st) as [[r|e] st'] eqn:Hrun; cbn [snd].
    + revert Hrun. unfold createInspectionItems. unfold_storage.
      repeat (case_step; cbn [fst snd]); intros H; inversion H; subst;
        try assumption; now apply invariant_items.
    + pose proof (createInspectionItems_preserves input now st e) as Hsame.
      rewrite Hrun in Hsame. cbn in Hsame. now rewrite Hsame.
  - intros input now st Hinv.
    destruct (updateInspectionItem input now st) as [[r|e] st'] eqn:Hrun; cbn [snd].
    + apply updateInspectionItem_success in Hrun.
      destruct Hrun as (old & rest & _ & _ & ->).
      now apply invariant_items.
    + pose proof (updateInspectionItem_preserves input now st e) as Hsame.
      rewrite Hrun in Hsame. cbn in Hsame. now rewrite Hsame.
Qed.

(** * Further properties of the handlers *)

(** X1: an update handler never adds or removes a row, never changes an
    identifier, a creation time or a reference of a row, and draws no
    identifier from a sequence: whether it returns or throws, its table
    holds as many rows as before and the same identifiers, each as often
    as before and each with the [created_at] (and, for inspections, the
    vehicle and the inspector; for items, the inspection and the name) it
    had, whatever the order a scan now reads the rows in; the other tables
    and all four sequences are as they were. *)
Theorem update_handlers_keep_rows :
  (forall uq input now st,
      let st' := snd (updateVehicle uq input now st) in
      Permutation (map (fun r => (Vehicle.id r, Vehicle.created_at r)) (vehicles st'))
                  (map (fun r => (Vehicle.id r, Vehicle.created_at r)) (vehicles st))
      /\ List.length (vehicles st') = List.length (vehicles st)
      /\ (forall id, List.length (filter (fun r => Vehicle.id r =? id)%Z (vehicles st'))
                     = List.length (filter (fun r => Vehicle.id r =? id)%Z (vehicles st)))
      /\ inspectors st' = inspectors st /\ inspections st' = inspections st
      /\ inspection_items st' = inspection_items st
      /\ vehicles_seq st' = vehicles_seq st /\ inspectors_seq st' = inspectors_seq st
      /\ inspections_seq st' = inspections_seq st
      /\ inspection_items_seq st' = inspection_items_seq st)
  /\ (forall uq input now st,
        let st' := snd (updateInspector uq input now st) in
        Permutation
          (map (fun r => (Inspector.id r, Inspector.created_at r)) (inspectors st'))
          (map (fun r => (Inspector.id r, Inspector.created_at r)) (inspectors st))
        /\ List.length (inspectors st') = List.length (inspectors st)
        /\ (forall id,
               List.length (filter (fun r => Inspector.id r =? id)%Z (inspectors st'))
               = List.length (filter (fun r => Inspector.id r =? id)%Z (inspectors st)))
        /\ vehicles st' = vehicles st /\ inspections st' = inspections st
        /\ inspection_items st' = inspection_items st
        /\ vehicles_seq st' = vehicles_seq st /\ inspectors_seq st' = inspectors_seq st
        /\ inspections_seq st' = inspections_seq st
        /\ inspection_items_seq st' = inspection_items_seq st)
  /\ (forall input now st,
        let st' := snd (updateInspection input now st) in
        Permutation
          (map (fun r => (Inspection.id r, Inspection.vehicle_id r,
                          Inspection.inspector_id r, Inspection.created_at r))
               (inspections st'))
          (map (fun r => (Inspection.id r, Inspection.vehicle_id r,
                          Inspection.inspector_id r, Inspection.created_at r))
               (inspections st))
        /\ List.length (inspections st') = List.length (inspections st)
        /\ (forall id,
               List.length (filter (fun r => Inspection.id r =? id)%Z (inspections st'))
               = List.length (filter (fun r => Inspection.id r =? id)%Z (inspections st)))
        /\ vehicles st' = vehicles st /\ inspectors st' = inspectors st
        /\ inspection_items st' = inspection_items st
        /\ vehicles_seq st' = vehicles_seq st /\ inspectors_seq st' = inspectors_seq st
        /\ inspections_seq st' = inspections_seq st
        /\ inspection_items_seq st' = inspection_items_seq st)
  /\ (forall input now st,
        let st' := snd (updateInspectionItem input now st) in
        Permutation
          (map (fun r => (InspectionItem.id r, InspectionItem.inspection_id r,
                          InspectionItem.item_name r, InspectionItem.created_at r))
               (inspection_items st'))
          (map (fun r => (InspectionItem.id r, InspectionItem.inspection_id r,
                          InspectionItem.item_name r, InspectionItem.created_at r))
               (inspection_items st))
        /\ List.length (inspection_items st') = List.length (inspection_items st)
        /\ (forall id,
               List.length
                 (filter (fun r => InspectionItem.id r =? id)%Z (inspection_items st'))
               = List.length
                   (filter (fun r => InspectionItem.id r =? id)%Z (inspection_items st)))
        /\ vehicles st' = vehicles st /\ inspectors st' = inspectors st
        /\ inspections st' = inspections st
        /\ vehicles_seq st' = vehicles_seq st /\ inspectors_seq st' = inspectors_seq st
        /\ inspections_seq st' = inspections_seq st
        /\ inspection_items_seq st' = inspection_items_seq st).
Proof.
  split; [|split; [|split]].
  - intros uq input now st.
    destruct (updateVehicle uq input now st) as [[r|e] st'] eqn:Hrun; cbn [snd].
    + apply updateVehicle_success in Hrun. destruct Hrun as (old & rest & _ & _ & ->).
      cbn. split; [|split; [|split]].
      * apply perm_key_update_rows. reflexivity.
      * apply length_update_rows.
      * intros id. apply count_key_update_rows. reflexivity.
      * repeat apply conj; reflexivity.
    + pose proof (updateVehicle_preserves uq input now st e) as Hsame.
      rewrite Hrun in Hsame. cbn in Hsame. rewrite Hsame by reflexivity.
      repeat apply conj; reflexivity.
  - intros uq input now st.
    destruct (updateInspector uq input now st) as [[r|e] st'] eqn:Hrun; cbn [snd].
    + apply updateInspector_success in Hrun.
      destruct Hrun as (old & rest & _ & _ & ->).
      cbn. split; [|split; [|split]].
      * apply perm_key_update_rows. reflexivity.
      * apply length_update_rows.
      * intros id. apply count_key_update_rows. reflexivity.
      * repeat apply conj; reflexivity.
    + pose proof (updateInspector_preserves uq input now st e) as Hsame.
      rewrite Hrun in Hsame. cbn in Hsame. rewrite Hsame by reflexivity.
      repeat apply conj; reflexivity.
  - intros input now st.
    destruct (updateInspection input now st) as [[r|e] st'] eqn:Hrun; cbn [snd].
    + apply updateInspection_success in Hrun.
      destruct Hrun as (old & rest & _ & _ & ->).
      cbn. split; [|split; [|split]].
      * apply perm_key_update_rows. reflexivity.
      * apply length_update_rows.
      * intros id. apply count_key_update_rows. reflexivity.
      * repeat apply conj; reflexivity.
    + pose proof (updateInspection_preserves input now st e) as Hsame.
      rewrite Hrun in Hsame. cbn in Hsame. rewrite Hsame by reflexivity.
      repeat apply conj; reflexivity.
  - intros input now st.
    destruct (updateInspectionItem input now st) as [[r|e] st'] eqn:Hrun; cbn [snd].
    + apply updateInspectionItem_success in Hrun.
      destruct Hrun as (old & rest & _ & _ & ->).
      cbn. split; [|split; [|split]].
      * apply perm_key_update_rows. reflexivity.
      * apply length_update_rows.
      * intros id. apply count_key_update_rows. reflexivity.
      * repeat apply conj; reflexivity.
    + pose proof (updateInspectionItem_preserves input now st e) as Hsame.
      rewrite Hrun in Hsame. cbn in Hsame. rewrite Hsame by reflexivity.
      repeat apply conj; reflexivity.
Qed.

(** X2: [getVehicleById] and [getInspectorById] return [null] when no row
    has the identifier, never return a row with another identifier or one
    that is not in the table, and, identifiers being unique, return the row
    that has it. The store is left as it is. *)
Theorem lookup_by_id (id : Z) (st : State) :
  ((forall v, In v (vehicles st) -> Vehicle.id v <> id) ->
   getVehicleById id st = (Ok None, st))
  /\ (forall v st', getVehicleById id st = (Ok (Some v), st') ->
        st' = st /\ In v (vehicles st) /\ Vehicle.id v = id)
  /\ (forall v, NoDup (map Vehicle.id (vehicles st)) -> In v (vehicles st) ->
        Vehicle.id v = id -> getVehicleById id st = (Ok (Some v), st))
  /\ ((forall p, In p (inspectors st) -> Inspector.id p <> id) ->
      getInspectorById id st = (Ok None, st))
  /\ (forall p st', getInspectorById id st = (Ok (Some p), st') ->
        st' = st /\ In p (inspectors st) /\ Inspector.id p = id)
  /\ (forall p, NoDup (map Inspector.id (inspectors st)) -> In p (inspectors st) ->
        Inspector.id p = id -> getInspectorById id st = (Ok (Some p), st)).
Proof.
  unfold getVehicleById, getInspectorById. unfold_storage. repeat apply conj.
  - intros Hnone. now rewrite (no_vehicle_with_id _ _ Hnone).
  - intros v st'.
    destruct (filter _ (vehicles st)) as [|first rest] eqn:Hsel; cbn; [discriminate|].
    intros H. inversion H; subst. apply first_match_holds in Hsel.
    destruct Hsel as [Hid Hin]. apply Z.eqb_eq in Hid. auto.
  - intros v Hnd Hin <-. now rewrite (filter_key_unique Vehicle.id _ v Hnd Hin).
  - intros Hnone. now rewrite (no_inspector_with_id _ _ Hnone).
  - intros p st'.
    destruct (filter _ (inspectors st)) as [|first rest] eqn:Hsel; cbn; [discriminate|].
    intros H. inversion H; subst. apply first_match_holds in Hsel.
    destruct Hsel as [Hid Hin]. apply Z.eqb_eq in Hid. auto.
  - intros p Hnd Hin <-. now rewrite (filter_key_unique Inspector.id _ p Hnd Hin).
Qed.

Lemma lookup_by_id_witness :
  getVehicleById 2 sample_store = (Ok (Some sample_vehicle2), sample_store)
  /\ getInspectorById 7 sample_store = (Ok None, sample_store).
Proof.
  split.
  - destruct (lookup_by_id 2 sample_store) as (_ & _ & Hfound & _).
    apply Hfound.
    + cbn. repeat constructor; cbn; intuition discriminate.
    + cbn. auto.
    + reflexivity.
  - destruct (lookup_by_id 7 sample_store) as (_ & _ & _ & Hnone & _).
    apply Hnone. cbn. intros p [<-|[]]. cbn. lia.
Defined.

(** X3: [getInspections] returns every inspection exactly once, latest
    [inspection_date] first, and leaves the store as it is. *)
Theorem getInspections_sorted (st : State) :
  exists rows,
    getInspections st = (Ok rows, st)
    /\ Permutation rows (inspections st)
    /\ StronglySorted
         (fun a b => (Inspection.inspection_date b <= Inspection.inspection_date a)%Z)
         rows.
Proof.
  eexists. split; [reflexivity|]. rewrite filter_all. split.
  - apply order_by_perm.
  - eapply StronglySorted_weaken.
    2: { apply (order_by_sorted
                  (fun a b => (Inspection.inspection_date b
                               <=? Inspection.inspection_date a)%Z)).
         - intros a b. apply created_at_desc_total.
         - intros a b c H1 H2. apply Z.leb_le in H1, H2. apply Z.leb_le. lia. }
    intros a b H. simpl in H. now apply Z.leb_le.
Qed.

Lemma existsb_none {A} (f : A -> bool) (l : list A) :
  (forall x, In x l -> f x = false) -> existsb f l = false.
Proof.
  induction l as [|x l IH]; simpl; intros H; [reflexivity|].
  rewrite (H x (or_introl eq_refl)). apply IH. intros y Hy. apply H. now right.
Qed.

Lemma truthy_nonempty (s : string) : s <> EmptyString -> truthy s = true.
Proof. destruct s; [contradiction|reflexivity]. Qed.



(** X5: [updateInspector] throws not-found when no inspector has the id;
    throws a conflict error, writing nothing, when the patch gives a
    non-empty employee id that an inspector with another id holds; and
    succeeds when only the inspector itself can hold that employee id. *)
Theorem updateInspector_outcome
    (uq : bool) (input : UpdateInspectorInput) (now : Date) (st : State) :
  ((forall p, In p (inspectors st) -> Inspector.id p <> up_id input) ->
   updateInspector uq input now st
   = (Throw (NotFound ("Inspector with ID " ++ show_Z (up_id input) ++ " not found")),
      st))
  /\ (forall e,
        (exists p, In p (inspectors st) /\ Inspector.id p = up_id input) ->
        up_employee_id input = Some e -> e <> EmptyString ->
        (exists other, In other (inspectors st)
                       /\ Inspector.id other <> up_id input
                       /\ Inspector.employee_id other = e) ->
        updateInspector uq input now st
        = (Throw (Conflict ("Inspector with employee ID " ++ e ++ " already exists")),
           st))
  /\ (forall e,
        (exists p, In p (inspectors st) /\ Inspector.id p = up_id input) ->
        up_employee_id input = Some e -> e <> EmptyString ->
        (forall other, In other (inspectors st) ->
           Inspector.id other <> up_id input -> Inspector.employee_id other <> e) ->
        exists row st',
          updateInspector uq input now st = (Ok (Some row), st')
          /\ Inspector.id row = up_id input
          /\ Inspector.employee_id row = e
          /\ In row (inspectors st')).
Proof.
  unfold updateInspector. unfold_storage. repeat apply conj.
  - intros Hnone. now rewrite (no_inspector_with_id _ _ Hnone).
  - intros e Hexists He Hne [other [Hin [Hid Hsame]]].
    rewrite (some_inspector_with_id _ _ Hexists). rewrite He.
    cbn [truthy_opt]. rewrite (truthy_nonempty e Hne).
    rewrite is_empty_filter_some; [reflexivity|].
    exists other. split; [assumption|]. cbn [strict_eq].
    apply String.eqb_eq in Hsame. apply Z.eqb_neq in Hid. now rewrite Hsame, Hid.
  - intros e Hexists He Hne Hfree.
    pose proof (some_inspector_with_id _ _ Hexists) as Hsome.
    destruct (filter (fun p => Inspector.id p =? up_id input)%Z (inspectors st))
      as [|old rest] eqn:Hsel; [discriminate Hsome|].
    cbn [is_empty]. rewrite He. cbn [truthy_opt]. rewrite (truthy_nonempty e Hne).
    rewrite (is_empty_filter_none
               (fun p => strict_eq (Inspector.employee_id p) (Some e)
                         && negb (Inspector.id p =? up_id input)%Z)).
    2: { intros p Hp. cbn [strict_eq].
         destruct (Inspector.id p =? up_id input)%Z eqn:Hid;
           [apply andb_false_r|].
         apply Z.eqb_neq in Hid. specialize (Hfree p Hp Hid).
         apply String.eqb_neq in Hfree. now rewrite Hfree. }
    cbn [is_empty negb]. rewrite Hsel.
    rewrite (existsb_none
               (fun r => employee_id_taken r
                           (filter (fun p => negb (Inspector.id p =? up_id input)%Z)
                              (inspectors st)))).
    2: { intros r Hr. apply in_map_iff in Hr. destruct Hr as [x [<- _]].
         unfold employee_id_taken. cbn. apply existsb_none.
         intros p Hp. apply filter_In in Hp. destruct Hp as [Hp Hid].
         apply negb_true_iff, Z.eqb_neq in Hid.
         apply String.eqb_neq. now apply Hfree. }
    rewrite andb_false_r. cbn [map hd_error].
    eexists. eexists. split; [reflexivity|].
    apply first_match_holds in Hsel. destruct Hsel as [Hid Hin].
    apply Z.eqb_eq in Hid. cbn. repeat apply conj; try assumption; try reflexivity.
    apply update_rows_written. apply filter_In. split; [assumption|].
    now apply Z.eqb_eq.
Qed.

Lemma updateInspector_outcome_witness :
  exists row st',
    updateInspector true
      {| up_id := 1; up_name := Some "John A. Smith"; up_employee_id := Some "EMP001" |}
      9500 sample_store
    = (Ok (Some row), st')
    /\ Inspector.employee_id row = "EMP001".
Proof.
  destruct (updateInspector_outcome true
              {| up_id := 1; up_name := Some "John A. Smith";
                 up_employee_id := Some "EMP001" |} 9500 sample_store)
    as (_ & _ & Hself).
  destruct (Hself "EMP001") as (row & st' & Hrun & _ & Hemp & _).
  - exists sample_inspector1. cbn. auto.
  - reflexivity.
  - discriminate.
  - cbn. intros other [<-|[]]. cbn. lia.
  - exists row, st'. split; assumption.
Defined.

Lemma update_statement_no_conflict uq cond u st message :
  fst ((result <- update_vehicles uq cond u ;; ret (hd_error result)) st)
  <> Throw (Conflict message).
Proof.
  unfold_storage. repeat (case_step; cbn [fst snd]); discriminate.
Qed.

Lemma updateVehicle_run uq input now st :
  (exists v, In v (vehicles st) /\ Vehicle.id v = uv_id input) ->
  let tail :=
    (result <-
       update_vehicles uq (fun v => Vehicle.id v =? uv_id input)%Z
         {| vu_make := uv_make input; vu_model := uv_model input;
            vu_year := uv_year input; vu_vin := uv_vin input;
            vu_license_plate := uv_license_plate input; vu_updated_at := now |} ;;
     ret (hd_error result)) in
  updateVehicle uq input now st
  = if is_empty (uniquenessConditions input) then tail st
    else
      match
        filter
          (sql_and ((fun v => negb (Vehicle.id v =? uv_id input)%Z)
                    :: uniquenessConditions input))
          (vehicles st)
      with
      | [] => tail st
      | conflict :: _ =>
          if truthy_opt (uv_vin input)
             && strict_eq (Vehicle.vin conflict) (uv_vin input)
          then (Throw (Conflict ("VIN " ++ show_opt (uv_vin input)
                                 ++ " is already in use by another vehicle")), st)
          else if truthy_opt (uv_license_plate input)
                  && strict_eq (Vehicle.license_plate conflict)
                       (uv_license_plate input)
          then (Throw (Conflict ("License plate " ++ show_opt (uv_license_plate input)
                                 ++ " is already in use by another vehicle")), st)
          else tail st
      end.
Proof.
  intros Hexists tail. subst tail. unfold updateVehicle.
  unfold bind at 1. unfold select_vehicles at 1.
  rewrite (some_vehicle_with_id _ _ Hexists).
  unfold bind at 1. unfold ret at 1.
  unfold bind at 1.
  destruct (is_empty (uniquenessConditions input)); cbn [negb]; [reflexivity|].
  unfold bind at 1. unfold select_vehicles at 1.
  destruct (filter _ (vehicles st)) as [|conflict rest]; [reflexivity|].
  destruct (truthy_opt (uv_vin input)
            && strict_eq (Vehicle.vin conflict) (uv_vin input)); [reflexivity|].
  destruct (truthy_opt (uv_license_plate input)
            && strict_eq (Vehicle.license_plate conflict) (uv_license_plate input));
    reflexivity.
Qed.

Lemma strict_eq_true (actual : string) (x : option string) :
  strict_eq actual x = true <-> x = Some actual.
Proof.
  destruct x as [s|]; cbn.
  - rewrite String.eqb_eq. split; [intros ->; reflexivity|intros [= ->]; reflexivity].
  - split; discriminate.
Qed.

Lemma conflict_condition (input : UpdateVehicleInput) (v : Vehicle.t) :
  sql_and ((fun v => negb (Vehicle.id v =? uv_id input)%Z)
           :: uniquenessConditions input) v = true
  <-> (Vehicle.id v <> uv_id input
       /\ (truthy_opt (uv_vin input) = true -> uv_vin input = Some (Vehicle.vin v))
       /\ (truthy_opt (uv_license_plate input) = true ->
           uv_license_plate input = Some (Vehicle.license_plate v))).
Proof.
  unfold sql_and, uniquenessConditions. cbn [forallb].
  rewrite andb_true_iff, negb_true_iff, Z.eqb_neq.
  destruct (truthy_opt (uv_vin input)), (truthy_opt (uv_license_plate input));
    cbn [Datatypes.app forallb]; rewrite ?andb_true_iff, ?strict_eq_true;
    intuition congruence.
Qed.

Lemma conditions_present (input : UpdateVehicleInput) :
  is_empty (uniquenessConditions input) = false
  <-> (truthy_opt (uv_vin input) = true \/ truthy_opt (uv_license_plate input) = true).
Proof.
  unfold uniquenessConditions.
  destruct (truthy_opt (uv_vin input)), (truthy_opt (uv_license_plate input));
    cbn; intuition congruence.
Qed.

Lemma updateVehicle_conflict_found
    (uq : bool) (input : UpdateVehicleInput) (now : Date) (st : State) message :
  (exists v, In v (vehicles st) /\ Vehicle.id v = uv_id input) ->
  fst (updateVehicle uq input now st) = Throw (Conflict message) ->
  (truthy_opt (uv_vin input) = true \/ truthy_opt (uv_license_plate input) = true)
  /\ exists other,
       In other (vehicles st) /\ Vehicle.id other <> uv_id input
       /\ (truthy_opt (uv_vin input) = true ->
           uv_vin input = Some (Vehicle.vin other))
       /\ (truthy_opt (uv_license_plate input) = true ->
           uv_license_plate input = Some (Vehicle.license_plate other)).
Proof.
  intros Hexists. rewrite (updateVehicle_run uq input now st Hexists). cbv zeta.
  intros Hrun.
  destruct (is_empty (uniquenessConditions input)) eqn:Hconds.
  { now apply update_statement_no_conflict in Hrun. }
  apply conditions_present in Hconds. split; [exact Hconds|].
  destruct (filter _ (vehicles st)) as [|conflict rest] eqn:Hsel.
  { now apply update_statement_no_conflict in Hrun. }
  apply first_match_holds in Hsel. destruct Hsel as [Hmatch Hin].
  apply conflict_condition in Hmatch. exists conflict. tauto.
Qed.

Lemma updateVehicle_conflict_raised
    (uq : bool) (input : UpdateVehicleInput) (now : Date) (st : State) other :
  (exists v, In v (vehicles st) /\ Vehicle.id v = uv_id input) ->
  truthy_opt (uv_vin input) = true \/ truthy_opt (uv_license_plate input) = true ->
  In other (vehicles st) ->
  Vehicle.id other <> uv_id input
  /\ (truthy_opt (uv_vin input) = true -> uv_vin input = Some (Vehicle.vin other))
  /\ (truthy_opt (uv_license_plate input) = true ->
      uv_license_plate input = Some (Vehicle.license_plate other)) ->
  exists message, fst (updateVehicle uq input now st) = Throw (Conflict message).
Proof.
  intros Hexists Hconds Hin Hother.
  rewrite (updateVehicle_run uq input now st Hexists). cbv zeta.
  apply conditions_present in Hconds. rewrite Hconds.
  destruct (filter _ (vehicles st)) as [|conflict rest] eqn:Hsel.
  { apply conflict_condition in Hother.
    rewrite (filter_nil_none _ _ Hsel other Hin) in Hother. discriminate. }
  apply first_match_holds in Hsel. destruct Hsel as [Hmatch _].
  apply conflict_condition in Hmatch. destruct Hmatch as (_ & Hvin & Hplate).
  apply conditions_present in Hconds.
  destruct (truthy_opt (uv_vin input)) eqn:Tv.
  - rewrite (proj2 (strict_eq_true _ _) (Hvin eq_refl)). cbn. eauto.
  - destruct Hconds as [Hc|Hc]; [discriminate|]. rewrite Hc.
    rewrite (proj2 (strict_eq_true _ _) (Hplate Hc)). cbn. eauto.
Qed.

(** X6: on an existing vehicle, [updateVehicle] throws its conflict error
    exactly when the patch gives a non-empty VIN or license plate and one
    single vehicle with another id holds every key the patch gives: with
    both keys in the patch, a vehicle that holds only one of them does not
    raise it. *)
Theorem updateVehicle_conflict_iff
    (uq : bool) (input : UpdateVehicleInput) (now : Date) (st : State) :
  (exists v, In v (vehicles st) /\ Vehicle.id v = uv_id input) ->
  ((exists message, fst (updateVehicle uq input now st) = Throw (Conflict message))
   <->
   ((truthy_opt (uv_vin input) = true \/ truthy_opt (uv_license_plate input) = true)
    /\ exists other,
         In other (vehicles st) /\ Vehicle.id other <> uv_id input
         /\ (truthy_opt (uv_vin input) = true ->
             uv_vin input = Some (Vehicle.vin other))
         /\ (truthy_opt (uv_license_plate input) = true ->
             uv_license_plate input = Some (Vehicle.license_plate other)))).
Proof.
  intros Hexists. split.
  - intros [message Hrun].
    exact (updateVehicle_conflict_found uq input now st message Hexists Hrun).
  - intros [Hconds [other [Hin Hother]]].
    exact (updateVehicle_conflict_raised uq input now st other Hexists Hconds Hin
             Hother).
Qed.

Lemma updateVehicle_conflict_iff_witness :
  exists message,
    fst (updateVehicle true
           {| uv_id := 3; uv_make := None; uv_model := None; uv_year := None;
              uv_vin := Some "1HGCM82633A111111"; uv_license_plate := Some "AAA111" |}
           9500 sample_store)
    = Throw (Conflict message).
Proof.
  apply (updateVehicle_conflict_iff true
           {| uv_id := 3; uv_make := None; uv_model := None; uv_year := None;
              uv_vin := Some "1HGCM82633A111111"; uv_license_plate := Some "AAA111" |}
           9500 sample_store).
  - exists sample_vehicle3. cbn. auto.
  - split; [now left|]. exists sample_vehicle1. cbn.
    repeat apply conj; auto; discriminate.
Defined.

(** X7: the edit form of a vehicle sends every field, hence both keys.
    When the plate in the form is one that no other vehicle holds (the
    vehicle's own, or a free one), submitting the form never raises the
    conflict error of [updateVehicle], whatever VIN was typed: a VIN held
    by another vehicle goes on to the update statement. *)
Theorem edit_form_never_reports_vin_conflict
    (uq : bool) (editingVehicle : Vehicle.t) (formData : VehicleFormData)
    (now : Date) (st : State) :
  In editingVehicle (vehicles st) ->
  fd_license_plate formData <> EmptyString ->
  (forall other, In other (vehicles st) ->
     Vehicle.id other <> Vehicle.id editingVehicle ->
     Vehicle.license_plate other <> fd_license_plate formData) ->
  forall message,
    fst (updateVehicle uq (edit_payload editingVehicle formData) now st)
    <> Throw (Conflict message).
Proof.
  intros Hin Hplate Hfree message Hrun.
  assert (Hexists : exists v, In v (vehicles st)
                              /\ Vehicle.id v
                                 = uv_id (edit_payload editingVehicle formData))
    by (exists editingVehicle; auto).
  destruct (updateVehicle_conflict_found uq _ now st message Hexists Hrun)
    as [_ [other (Hother & Hid & _ & Hsame)]].
  cbn in Hid, Hsame. specialize (Hsame (truthy_nonempty _ Hplate)).
  inversion Hsame as [Heq]. apply (Hfree other Hother Hid). now symmetry.
Qed.

Lemma edit_form_never_reports_vin_conflict_witness :
  fst (updateVehicle true
         (edit_payload sample_vehicle3
            {| fd_make := "Ford"; fd_model := "F-150"; fd_year := 2022;
               fd_vin := "1HGCM82633A111111"; fd_license_plate := "CCC333" |})
         9500 sample_store)
  <> Throw (Conflict "VIN 1HGCM82633A111111 is already in use by another vehicle").
Proof.
  apply edit_form_never_reports_vin_conflict.
  - cbn. auto.
  - discriminate.
  - cbn. intros other [<-|[<-|[<-|[]]]]; cbn; intros Hid; try discriminate.
    now contradiction Hid.
Defined.

Lemma gone_ids (id x : Z) (rows : list Vehicle.t) :
  (exists v, In v rows /\ Vehicle.id v = id) ->
  existsb (Z.eqb x) (map Vehicle.id (filter (fun v => Vehicle.id v =? id)%Z rows)) = true
  <-> x = id.
Proof.
  intros [v [Hin Hid]]. rewrite existsb_exists. split.
  - intros [k [Hk Hx]]. apply in_map_iff in Hk. destruct Hk as [w [<- Hw]].
    apply filter_In in Hw. destruct Hw as [_ Hw].
    apply Z.eqb_eq in Hw, Hx. congruence.
  - intros ->. exists id. split; [|apply Z.eqb_refl].
    apply in_map_iff. exists v. split; [assumption|].
    apply filter_In. split; [assumption|now apply Z.eqb_eq].
Qed.

(** X8: [deleteVehicle] throws not-found, writing nothing, when no vehicle
    has the id. Otherwise it acknowledges, and afterwards the vehicles are
    those with another id, the inspections those of other vehicles, the
    items those whose inspection was not an inspection of the deleted
    vehicle; the inspectors and the sequences are untouched. *)
Theorem deleteVehicle_outcome (id : Z) (st : State) :
  ((forall v, In v (vehicles st) -> Vehicle.id v <> id) ->
   deleteVehicle id st
   = (Throw (NotFound ("Vehicle with ID " ++ show_Z id ++ " not found")), st))
  /\ ((exists v, In v (vehicles st) /\ Vehicle.id v = id) ->
      exists st',
        deleteVehicle id st = (Ok true, st')
        /\ (forall v, In v (vehicles st') <-> In v (vehicles st) /\ Vehicle.id v <> id)
        /\ (forall i, In i (inspections st')
                      <-> In i (inspections st) /\ Inspection.vehicle_id i <> id)
        /\ (forall t, In t (inspection_items st')
                      <-> In t (inspection_items st)
                          /\ ~ (exists i, In i (inspections st)
                                          /\ Inspection.vehicle_id i = id
                                          /\ Inspection.id i
                                             = InspectionItem.inspection_id t))
        /\ inspectors st' = inspectors st
        /\ vehicles_seq st' = vehicles_seq st
        /\ inspectors_seq st' = inspectors_seq st
        /\ inspections_seq st' = inspections_seq st
        /\ inspection_items_seq st' = inspection_items_seq st).
Proof.
  unfold deleteVehicle. unfold_storage. split.
  - intros Hnone. now rewrite (no_vehicle_with_id _ _ Hnone).
  - intros Hexists. pose proof (some_vehicle_with_id _ _ Hexists) as Hsome.
    destruct (filter (fun v => Vehicle.id v =? id)%Z (vehicles st))
      as [|first rest] eqn:Hsel; [discriminate Hsome|].
    cbn [firstn is_empty]. clear Hsel Hsome first rest.
    eexists. split; [reflexivity|]. cbn. repeat apply conj; try reflexivity.
    + intros v. rewrite filter_In, negb_true_iff, Z.eqb_neq. tauto.
    + intros i. rewrite filter_In, negb_true_iff.
      rewrite <- (gone_ids id (Inspection.vehicle_id i) _ Hexists).
      destruct (existsb _ _); intuition congruence.
    + intros t. rewrite filter_In, negb_true_iff. split.
      * intros [Hin Hkept]. split; [assumption|].
        intros [i [Hi [Hveh Hid]]].
        assert (Hgone : existsb (Z.eqb (InspectionItem.inspection_id t))
                          (map Inspection.id
                             (filter
                                (fun i => existsb (Z.eqb (Inspection.vehicle_id i))
                                            (map Vehicle.id
                                               (filter (fun v => Vehicle.id v =? id)%Z
                                                  (vehicles st))))
                                (inspections st))) = true).
        { apply existsb_exists. exists (Inspection.id i). split.
          - apply in_map. apply filter_In. split; [assumption|].
            now apply (gone_ids id _ _ Hexists).
          - apply Z.eqb_eq. now symmetry. }
        congruence.
      * intros [Hin Hnone]. split; [assumption|].
        destruct (existsb _ _) eqn:Hgone; [|reflexivity]. exfalso. apply Hnone.
        apply existsb_exists in Hgone. destruct Hgone as [k [Hk Hx]].
        apply in_map_iff in Hk. destruct Hk as [i [<- Hi]].
        apply filter_In in Hi. destruct Hi as [Hi Hveh].
        apply (gone_ids id _ _ Hexists) in Hveh. apply Z.eqb_eq in Hx.
        exists i. auto.
Qed.

Lemma deleteVehicle_outcome_witness :
  exists st',
    deleteVehicle 1 sample_store = (Ok true, st')
    /\ ~ In sample_vehicle1 (vehicles st')
    /\ ~ In sample_inspection1 (inspections st')
    /\ In sample_inspection2 (inspections st')
    /\ ~ In sample_item1 (inspection_items st').
Proof.
  destruct (deleteVehicle_outcome 1 sample_store) as [_ Hdelete].
  destruct Hdelete as (st' & Hrun & Hv & Hi & Ht & _).
  - exists sample_vehicle1. cbn. auto.
  - exists st'. repeat apply conj.
    + exact Hrun.
    + rewrite Hv. cbn. intros [_ Hne]. now apply Hne.
    + rewrite Hi. cbn. intros [_ Hne]. now apply Hne.
    + rewrite Hi. cbn. split; [auto|discriminate].
    + rewrite Ht. intros [_ Hnone]. apply Hnone. exists sample_inspection1.
      cbn. auto.
Defined.

(** * Joined reads *)

Lemma reduce_step_get (acc : ItemsObject) (item : InspectionItem.t) (id : Z) :
  object_get_or_empty (reduce_step acc item) id
  = (object_get_or_empty acc id
     ++ (if (InspectionItem.inspection_id item =? id)%Z then [item] else []))%list.
Proof.
  unfold reduce_step, object_get_or_empty, object_set.
  destruct (acc (InspectionItem.inspection_id item)) as [bucket|] eqn:Hacc.
  - rewrite Hacc. rewrite Z.eqb_sym.
    destruct (InspectionItem.inspection_id item =? id)%Z eqn:Hid.
    + apply Z.eqb_eq in Hid. rewrite <- Hid, Hacc. reflexivity.
    + now rewrite app_nil_r.
  - rewrite Z.eqb_refl. rewrite Z.eqb_sym.
    destruct (InspectionItem.inspection_id item =? id)%Z eqn:Hid.
    + apply Z.eqb_eq in Hid. rewrite <- Hid, Hacc. reflexivity.
    + now rewrite app_nil_r.
Qed.

(** X9: the object that the [reduce] of [getVehicleInspections] builds
    holds, under each inspection id, exactly the items with that
    [inspection_id], in the order of the input, and reads as the empty array
    under an id no item has. *)
Theorem reduce_items_groups (inspectionItems : list InspectionItem.t) (id : Z) :
  object_get_or_empty (reduce_items inspectionItems) id
  = itemsByInspection inspectionItems id.
Proof.
  unfold reduce_items, itemsByInspection.
  assert (Hgen : forall acc,
             object_get_or_empty (fold_left reduce_step inspectionItems acc) id
             = (object_get_or_empty acc id
                ++ filter (fun t => InspectionItem.inspection_id t =? id)%Z
                     inspectionItems)%list).
  { induction inspectionItems as [|item items IH]; intros acc; simpl.
    - now rewrite app_nil_r.
    - rewrite IH, reduce_step_get, <- app_assoc.
      destruct (InspectionItem.inspection_id item =? id)%Z; reflexivity. }
  rewrite Hgen. reflexivity.
Qed.

Lemma map_filter_comm {A B} (f : A -> B) (c : B -> bool) (l : list A) :
  map f (filter (fun r => c (f r)) l) = filter c (map f l).
Proof.
  induction l as [|x l IH]; simpl; [reflexivity|].
  destruct (c (f x)); simpl; now rewrite IH.
Qed.

Lemma filter_concat_selects (items : list InspectionItem.t) (k : Z) (ids : list Z) :
  NoDup ids -> In k ids ->
  filter (fun t => InspectionItem.inspection_id t =? k)%Z
    (List.concat
       (map (fun id => filter (fun t => InspectionItem.inspection_id t =? id)%Z items)
          ids))
  = filter (fun t => InspectionItem.inspection_id t =? k)%Z items.
Proof.
  assert (Hother : forall x, x <> k ->
             filter (fun t => InspectionItem.inspection_id t =? k)%Z
               (filter (fun t => InspectionItem.inspection_id t =? x)%Z items) = []).
  { intros x Hx. apply is_empty_filter_none. intros t Ht.
    apply filter_In in Ht. destruct Ht as [_ Ht]. apply Z.eqb_eq in Ht.
    apply Z.eqb_neq. congruence. }
  assert (Hrest : forall l, ~ In k l ->
             filter (fun t => InspectionItem.inspection_id t =? k)%Z
               (List.concat
                  (map (fun id =>
                          filter (fun t => InspectionItem.inspection_id t =? id)%Z items)
                     l)) = []).
  { induction l as [|x l IH]; simpl; intros Hk; [reflexivity|].
    rewrite filter_app, Hother, IH by tauto. reflexivity. }
  induction ids as [|x ids IH]; simpl; intros Hnd Hin; [contradiction|].
  inversion Hnd as [|? ? Hnotin Hnd']; subst. rewrite filter_app.
  destruct (Z.eq_dec x k) as [->|Hne].
  - rewrite (Hrest ids Hnotin), app_nil_r.
    rewrite <- (filter_ext_in (fun t => true)).
    + apply filter_all.
    + intros t Ht. apply filter_In in Ht. symmetry. tauto.
  - rewrite (Hother x Hne). simpl. apply IH; [assumption|].
    destruct Hin; [contradiction|assumption].
Qed.

Lemma getVehicleInspections_eq (vehicle_id : Z) (st : State) :
  let results :=
    order_by
      (fun a b => (Inspection.inspection_date (fst (fst b))
                   <=? Inspection.inspection_date (fst (fst a)))%Z)
      (filter (fun r => (Inspection.vehicle_id (fst (fst r)) =? vehicle_id)%Z)
         (join_inspections st)) in
  let inspectionItems :=
    List.concat
      (map (fun id =>
              filter (fun t => InspectionItem.inspection_id t =? id)%Z
                (inspection_items st))
         (map (fun r => Inspection.id (fst (fst r))) results)) in
  getVehicleInspections vehicle_id st
  = (Ok (map (fun r =>
                with_details r
                  (itemsByInspection inspectionItems (Inspection.id (fst (fst r)))))
           results), st).
Proof.
  intros results inspectionItems. unfold getVehicleInspections. unfold_storage.
  fold results. subst inspectionItems.
  destruct (map (fun r => Inspection.id (fst (fst r))) results) as [|first others];
    [reflexivity|].
  rewrite (mapM_reads _
             (fun id => filter (fun t => InspectionItem.inspection_id t =? id)%Z
                          (inspection_items st)))
    by reflexivity.
  reflexivity.
Qed.

(** X10: on a store whose references are intact and whose inspection ids
    are unique, [getVehicleInspections] returns exactly the inspections of
    the vehicle, each once, latest [inspection_date] first, each with its
    vehicle, its inspector and the items of that inspection; it returns the
    empty list when the vehicle has no inspection, and leaves the store as it
    is. *)
Theorem getVehicleInspections_correct (vehicle_id : Z) (st : State) :
  referential_integrity st ->
  NoDup (map Inspection.id (inspections st)) ->
  exists result,
    getVehicleInspections vehicle_id st = (Ok result, st)
    /\ Permutation (map inspection_of result)
         (filter (fun i => Inspection.vehicle_id i =? vehicle_id)%Z (inspections st))
    /\ StronglySorted
         (fun a b => (InspectionWithDetails.inspection_date b
                      <= InspectionWithDetails.inspection_date a)%Z)
         result
    /\ (forall d, In d result ->
          InspectionWithDetails.vehicle_id d = vehicle_id
          /\ In (InspectionWithDetails.vehicle d) (vehicles st)
          /\ Vehicle.id (InspectionWithDetails.vehicle d) = vehicle_id
          /\ In (InspectionWithDetails.inspector d) (inspectors st)
          /\ Inspector.id (InspectionWithDetails.inspector d)
             = InspectionWithDetails.inspector_id d
          /\ InspectionWithDetails.items d
             = filter (fun t => InspectionItem.inspection_id t
                                =? InspectionWithDetails.id d)%Z
                 (inspection_items st))
    /\ ((forall i, In i (inspections st) -> Inspection.vehicle_id i <> vehicle_id) ->
        result = []).
Proof.
  intros Hri Hnd. eexists. split; [apply getVehicleInspections_eq|].
  set (le' := fun a b : Inspection.t * Vehicle.t * Inspector.t =>
                (Inspection.inspection_date (fst (fst b))
                 <=? Inspection.inspection_date (fst (fst a)))%Z).
  set (rows := filter (fun r => (Inspection.vehicle_id (fst (fst r)) =? vehicle_id)%Z)
                 (join_inspections st)).
  set (results := order_by le' rows).
  set (inspectionItems := List.concat _).
  set (g := fun r : Inspection.t * Vehicle.t * Inspector.t =>
              with_details r
                (itemsByInspection inspectionItems (Inspection.id (fst (fst r))))).
  pose proof (join_inspections_all st Hri) as Hall.
  assert (Hperm : Permutation results rows) by apply order_by_perm.
  assert (Hrows : map (fun r => fst (fst r)) rows
                  = filter (fun i => Inspection.vehicle_id i =? vehicle_id)%Z
                      (inspections st)).
  { unfold rows.
    rewrite (map_filter_comm (fun r => fst (fst r))
               (fun i => (Inspection.vehicle_id i =? vehicle_id)%Z)).
    now rewrite Hall. }
  assert (Hproj : map inspection_of (map g results)
                  = map (fun r => fst (fst r)) results).
  { rewrite map_map. apply map_ext. intros r. apply inspection_of_with_details. }
  assert (Hids : NoDup (map (fun r => Inspection.id (fst (fst r))) results)).
  { apply (Permutation_NoDup
             (l := map Inspection.id
                     (filter (fun i => Inspection.vehicle_id i =? vehicle_id)%Z
                        (inspections st)))).
    - rewrite <- Hrows, map_map. apply Permutation_map. now apply Permutation_sym.
    - now apply NoDup_map_filter. }
  assert (Hrow : forall i v p, In (i, v, p) results ->
             Inspection.vehicle_id i = vehicle_id
             /\ In v (vehicles st) /\ Vehicle.id v = Inspection.vehicle_id i
             /\ In p (inspectors st) /\ Inspector.id p = Inspection.inspector_id i).
  { intros i v p Hin. apply (Permutation_in _ Hperm) in Hin.
    unfold rows in Hin. apply filter_In in Hin. destruct Hin as [Hin Hveh].
    apply join_row_sound in Hin. apply Z.eqb_eq in Hveh. cbn in Hveh. tauto. }
  repeat apply conj.
  - rewrite Hproj, <- Hrows. now apply Permutation_map.
  - apply StronglySorted_map with (f := g).
    apply StronglySorted_weaken with (R := fun a b => le' a b = true).
    + intros [[a ?] ?] [[b ?] ?] H. cbn in *. now apply Z.leb_le.
    + apply order_by_sorted.
      * intros a b. apply created_at_desc_total.
      * intros a b c H1 H2. unfold le' in *.
        apply Z.leb_le in H1, H2. apply Z.leb_le. lia.
  - intros d Hd. apply in_map_iff in Hd. destruct Hd as [[[i v] p] [<- Hr]].
    destruct (Hrow i v p Hr) as (Hveh & Hv & Hvid & Hp & Hpid).
    unfold g. rewrite with_details_vehicle, with_details_inspector.
    cbn [with_details InspectionWithDetails.vehicle_id
         InspectionWithDetails.inspector_id InspectionWithDetails.items
         InspectionWithDetails.id fst].
    repeat apply conj; try assumption; try congruence.
    unfold itemsByInspection, inspectionItems.
    apply filter_concat_selects; [exact Hids|].
    apply in_map_iff. now exists (i, v, p).
  - intros Hnone.
    assert (Hempty : rows = []).
    { apply map_eq_nil with (f := fun r => fst (fst r)). rewrite Hrows.
      apply is_empty_filter_none. intros i Hi. apply Z.eqb_neq. now apply Hnone. }
    unfold results. now rewrite Hempty.
Qed.

Lemma getVehicleInspections_correct_witness :
  exists result,
    getVehicleInspections 1 sample_store = (Ok result, sample_store)
    /\ map inspection_of result = [sample_inspection1].
Proof.
  destruct (getVehicleInspections_correct 1 sample_store sample_store_integrity)
    as (result & Hrun & Hperm & _).
  - cbn. repeat constructor; cbn; intuition discriminate.
  - exists result. split; [exact Hrun|].
    cbn in Hperm. apply Permutation_sym, Permutation_length_1_inv in Hperm.
    exact Hperm.
Defined.

Lemma getInspectionDetails_found (inspection_id : Z) (st : State) :
  referential_integrity st ->
  (exists i, In i (inspections st) /\ Inspection.id i = inspection_id) ->
  exists d,
    getInspectionDetails inspection_id st = (Ok (Some d), st)
    /\ In (inspection_of d) (inspections st)
    /\ InspectionWithDetails.id d = inspection_id
    /\ In (InspectionWithDetails.vehicle d) (vehicles st)
    /\ Vehicle.id (InspectionWithDetails.vehicle d)
       = InspectionWithDetails.vehicle_id d
    /\ In (InspectionWithDetails.inspector d) (inspectors st)
    /\ Inspector.id (InspectionWithDetails.inspector d)
       = InspectionWithDetails.inspector_id d
    /\ InspectionWithDetails.items d
       = filter (fun t => InspectionItem.inspection_id t =? inspection_id)%Z
           (inspection_items st).
Proof.
  unfold getInspectionDetails. unfold_storage.
  intros Hri [i [Hin Hid]].
  destruct (filter (fun r => (Inspection.id (fst (fst r)) =? inspection_id)%Z)
              (join_inspections st)) as [|[[j v] p] rest] eqn:Hsel.
  - exfalso.
    assert (Hmap : filter (fun i => Inspection.id i =? inspection_id)%Z
                     (inspections st) = []).
    { rewrite <- (join_inspections_all st Hri).
      rewrite <- (map_filter_comm (fun r => fst (fst r))
                    (fun i => (Inspection.id i =? inspection_id)%Z)).
      now rewrite Hsel. }
    apply (filter_nil_none _ _ Hmap i) in Hin. apply Z.eqb_neq in Hin. auto.
  - apply first_match_holds in Hsel. destruct Hsel as [Hmatch Hrow].
    apply Z.eqb_eq in Hmatch. cbn in Hmatch.
    apply join_row_sound in Hrow.
    eexists. split; [reflexivity|].
    rewrite inspection_of_with_details, with_details_vehicle,
      with_details_inspector, map_copy_item.
    cbn [with_details InspectionWithDetails.vehicle_id
         InspectionWithDetails.inspector_id InspectionWithDetails.items
         InspectionWithDetails.id fst].
    tauto.
Qed.

(** X11: [getInspectionDetails] returns [null] when no inspection has the
    id; on a store whose references are intact and where some inspection
    has the id, it returns an inspection of the store with that id, with its
    vehicle, its inspector and all the items of that inspection. The store
    is left as it is. *)
Theorem getInspectionDetails_correct (inspection_id : Z) (st : State) :
  ((forall i, In i (inspections st) -> Inspection.id i <> inspection_id) ->
   getInspectionDetails inspection_id st = (Ok None, st))
  /\ (referential_integrity st ->
      (exists i, In i (inspections st) /\ Inspection.id i = inspection_id) ->
      exists d,
        getInspectionDetails inspection_id st = (Ok (Some d), st)
        /\ In (inspection_of d) (inspections st)
        /\ InspectionWithDetails.id d = inspection_id
        /\ In (InspectionWithDetails.vehicle d) (vehicles st)
        /\ Vehicle.id (InspectionWithDetails.vehicle d)
           = InspectionWithDetails.vehicle_id d
        /\ In (InspectionWithDetails.inspector d) (inspectors st)
        /\ Inspector.id (InspectionWithDetails.inspector d)
           = InspectionWithDetails.inspector_id d
        /\ InspectionWithDetails.items d
           = filter (fun t => InspectionItem.inspection_id t =? inspection_id)%Z
               (inspection_items st)).
Proof.
  split.
  - intros Hnone. unfold getInspectionDetails. unfold_storage.
    rewrite (is_empty_filter_none
               (fun r => (Inspection.id (fst (fst r)) =? inspection_id)%Z));
      [reflexivity|].
    intros [[i v] p] Hr. apply join_row_sound in Hr. apply Z.eqb_neq.
    apply Hnone. tauto.
  - apply getInspectionDetails_found.
Qed.

Lemma getInspectionDetails_correct_witness :
  exists d,
    getInspectionDetails 1 sample_store = (Ok (Some d), sample_store)
    /\ InspectionWithDetails.items d = [sample_item1].
Proof.
  destruct (getInspectionDetails_correct 1 sample_store) as [_ Hfound].
  destruct (Hfound sample_store_integrity) as (d & Hrun & _ & _ & _ & _ & _ & _ & Hitems).
  - exists sample_inspection1. cbn. auto.
  - exists d. split; [exact Hrun|]. rewrite Hitems. reflexivity.
Defined.

(** * Unique keys *)

Lemma existsb_false_inv {A} (f : A -> bool) (l : list A) :
  existsb f l = false -> forall x, In x l -> f x = false.
Proof.
  intros H x Hx. destruct (f x) eqn:Hf; [|reflexivity].
  assert (Ht : existsb f l = true) by (apply existsb_exists; eauto). congruence.
Qed.

Lemma NoDup_map_fresh {A K} (col : A -> K) (l : list A) (row : A) :
  NoDup (map col l) -> (forall x, In x l -> col x <> col row) ->
  NoDup (map col (l ++ [row])).
Proof.
  intros Hnd Hfresh. rewrite map_app. simpl.
  apply NoDup_app; [assumption|repeat constructor; intros []|].
  intros k Hk [<-|[]]. apply in_map_iff in Hk. destruct Hk as [x [Hx Hin]].
  now apply (Hfresh x Hin).
Qed.

Lemma in_update_rows_cases {A} (cond : A -> bool) (set : A -> A) (rows : list A)
    (y : A) :
  In y (update_rows cond set rows) ->
  exists x, In x rows
            /\ ((cond x = false /\ y = x) \/ (cond x = true /\ y = set x)).
Proof.
  unfold update_rows. intros H. apply in_app_or in H. destruct H as [H|H].
  - apply filter_In in H. destruct H as [Hin Hc].
    exists y. split; [assumption|]. left. split; [|reflexivity].
    now destruct (cond y).
  - apply in_map_iff in H. destruct H as [x [Hy Hx]].
    apply filter_In in Hx. destruct Hx as [Hin Hc].
    exists x. split; [assumption|]. right. now split.
Qed.

Lemma NoDup_update_one {A K} (key : A -> Z) (col : A -> K) (k : Z) (set : A -> A)
    (rows : list A) :
  NoDup (map key rows) -> NoDup (map col rows) ->
  (forall r x, In r rows -> In x rows -> key r = k -> key x <> k ->
     col (set r) <> col x) ->
  NoDup (map col (update_rows (fun r => key r =? k)%Z set rows)).
Proof.
  intros Hkeys Hcols Hclash. unfold update_rows. rewrite map_app.
  assert (Hone : filter (fun r => (key r =? k)%Z) rows = []
                 \/ exists a, In a rows /\ key a = k
                              /\ filter (fun r => (key r =? k)%Z) rows = [a]).
  { destruct (filter (fun r => (key r =? k)%Z) rows) as [|a rest] eqn:Hsel;
      [now left|right].
    destruct (first_match_holds _ _ _ _ Hsel) as [Hk Hin].
    apply Z.eqb_eq in Hk. exists a. split; [assumption|]. split; [assumption|].
    rewrite <- Hsel. subst k. now apply filter_key_unique. }
  destruct Hone as [Hnil|[a [Hin [Hk Hsel]]]]; rewrite ?Hnil, ?Hsel; simpl.
  - rewrite app_nil_r. now apply NoDup_map_filter.
  - change [col (set a)] with (map col [set a]). rewrite <- map_app.
    apply NoDup_map_fresh.
    + now apply NoDup_map_filter.
    + intros x Hx. apply filter_In in Hx. destruct Hx as [Hx Hne].
      apply negb_true_iff, Z.eqb_neq in Hne.
      intros Heq. apply (Hclash a x); auto.
Qed.

Lemma update_vehicles_enforced cond u st rows st' :
  update_vehicles true cond u st = (Ok rows, st') ->
  forall r x, In r (filter cond (vehicles st)) ->
    In x (filter (fun v => negb (cond v)) (vehicles st)) ->
    Vehicle.vin (set_vehicle u r) <> Vehicle.vin x
    /\ Vehicle.license_plate (set_vehicle u r) <> Vehicle.license_plate x.
Proof.
  unfold update_vehicles. cbn [andb].
  destruct (existsb (fun r => vin_taken r _) _) eqn:Hvin; [discriminate|].
  destruct (existsb (fun r => license_plate_taken r _) _) eqn:Hplate; [discriminate|].
  intros _ r x Hr Hx.
  apply (in_map (set_vehicle u)) in Hr.
  pose proof (existsb_false_inv _ _ Hvin _ Hr) as H1.
  pose proof (existsb_false_inv _ _ Hplate _ Hr) as H2.
  unfold vin_taken in H1. unfold license_plate_taken in H2.
  pose proof (existsb_false_inv _ _ H1 _ Hx) as H3.
  pose proof (existsb_false_inv _ _ H2 _ Hx) as H4.
  apply String.eqb_neq in H3, H4. split; congruence.
Qed.

Lemma updateVehicle_statement uq input now st r st' :
  updateVehicle uq input now st = (Ok r, st') ->
  exists rows,
    update_vehicles uq (fun v => Vehicle.id v =? uv_id input)%Z
      {| vu_make := uv_make input; vu_model := uv_model input;
         vu_year := uv_year input; vu_vin := uv_vin input;
         vu_license_plate := uv_license_plate input; vu_updated_at := now |} st
    = (Ok rows, st').
Proof.
  intros Hrun.
  assert (Hexists : exists v, In v (vehicles st) /\ Vehicle.id v = uv_id input).
  { apply updateVehicle_success in Hrun. destruct Hrun as (old & rest & Hsel & _).
    apply first_match_holds in Hsel. destruct Hsel as [Hid Hin].
    apply Z.eqb_eq in Hid. eauto. }
  rewrite (updateVehicle_run uq input now st Hexists) in Hrun. cbv zeta in Hrun.
  assert (Htail : forall u,
             (result <- update_vehicles uq (fun v => Vehicle.id v =? uv_id input)%Z u ;;
              ret (hd_error result)) st = (Ok r, st') ->
             exists rows,
               update_vehicles uq (fun v => Vehicle.id v =? uv_id input)%Z u st
               = (Ok rows, st')).
  { intros u. unfold bind, ret.
    destruct (update_vehicles uq _ u st) as [[rows|e] s]; [|discriminate].
    intros H. inversion H; subst. eauto. }
  destruct (is_empty (uniquenessConditions input)); [now apply Htail|].
  destruct (filter _ (vehicles st)) as [|conflict rest]; [now apply Htail|].
  destruct (truthy_opt (uv_vin input) && _); [discriminate|].
  destruct (truthy_opt (uv_license_plate input) && _); [discriminate|].
  now apply Htail.
Qed.

Lemma createVehicle_keeps_keys uq input now st :
  keys_unique st -> keys_unique (snd (createVehicle uq input now st)).
Proof.
  intros (Hvin & Hplate & Hemp).
  destruct (filter (fun v => (Vehicle.vin v =? cv_vin input)
                             || (Vehicle.license_plate v =? cv_license_plate input))
              (vehicles st)) as [|first rest] eqn:Hsel.
  - rewrite (createVehicle_no_match uq input now st Hsel). cbn [snd].
    unfold keys_unique. cbn. repeat apply conj; [| |assumption].
    + apply NoDup_map_fresh; [assumption|]. intros x Hx. cbn.
      pose proof (filter_nil_none _ _ Hsel x Hx) as Hf. cbn in Hf.
      apply orb_false_iff in Hf. destruct Hf as [Hf _]. now apply String.eqb_neq.
    + apply NoDup_map_fresh; [assumption|]. intros x Hx. cbn.
      pose proof (filter_nil_none _ _ Hsel x Hx) as Hf. cbn in Hf.
      apply orb_false_iff in Hf. destruct Hf as [_ Hf]. now apply String.eqb_neq.
  - rewrite (createVehicle_first_match uq input now st first rest Hsel).
    cbn [snd]. unfold keys_unique. auto.
Qed.

Lemma createInspector_keeps_keys uq input now st :
  keys_unique st -> keys_unique (snd (createInspector uq input now st)).
Proof.
  intros (Hvin & Hplate & Hemp). unfold createInspector. unfold_storage.
  destruct (filter _ (inspectors st)) as [|existing rest] eqn:Hsel;
    [|cbn; unfold keys_unique; auto].
  pose proof (filter_nil_none _ _ Hsel) as Hfree.
  apply existsb_filter_nil in Hsel.
  unfold employee_id_taken. cbn [Inspector.employee_id is_empty negb].
  rewrite Hsel, andb_false_r. cbn [snd].
  unfold keys_unique. cbn. repeat apply conj; [assumption|assumption|].
  apply NoDup_map_fresh; [assumption|]. intros x Hx. cbn.
  apply String.eqb_neq. now apply Hfree.
Qed.

Lemma updateVehicle_enforced_keeps_keys input now st :
  NoDup (map Vehicle.id (vehicles st)) -> keys_unique st ->
  keys_unique (snd (updateVehicle true input now st)).
Proof.
  intros Hids (Hvin & Hplate & Hemp).
  destruct (updateVehicle true input now st) as [[r|e] st'] eqn:Hrun; cbn [snd].
  - destruct (updateVehicle_statement _ _ _ _ _ _ Hrun) as [rows Hstmt].
    pose proof (update_vehicles_enforced _ _ _ _ _ Hstmt) as Hclash.
    apply updateVehicle_success in Hrun. destruct Hrun as (old & rest & _ & _ & ->).
    unfold keys_unique. cbn. repeat apply conj; [| |assumption].
    + apply (NoDup_update_one Vehicle.id Vehicle.vin); try assumption.
      intros w x Hw Hx Hwid Hxid. apply Hclash.
      * apply filter_In. split; [assumption|now apply Z.eqb_eq].
      * apply filter_In. split; [assumption|]. now apply negb_true_iff, Z.eqb_neq.
    + apply (NoDup_update_one Vehicle.id Vehicle.license_plate); try assumption.
      intros w x Hw Hx Hwid Hxid. apply Hclash.
      * apply filter_In. split; [assumption|now apply Z.eqb_eq].
      * apply filter_In. split; [assumption|]. now apply negb_true_iff, Z.eqb_neq.
  - pose proof (updateVehicle_preserves true input now st e) as Hsame.
    rewrite Hrun in Hsame. cbn in Hsame. rewrite Hsame by reflexivity.
    unfold keys_unique. auto.
Qed.

Lemma NoDup_map_inj {A K} (col : A -> K) (l : list A) (a b : A) :
  NoDup (map col l) -> In a l -> In b l -> col a = col b -> a = b.
Proof.
  induction l as [|x l IH]; simpl; intros Hnd Ha Hb Heq; [contradiction|].
  inversion Hnd as [|? ? Hnotin Hnd']; subst.
  destruct Ha as [->|Ha], Hb as [->|Hb]; auto.
  - exfalso. apply Hnotin. rewrite Heq. now apply in_map.
  - exfalso. apply Hnotin. rewrite <- Heq. now apply in_map.
Qed.

Lemma updateInspector_clash_free uq input now st r st' :
  updateInspector uq input now st = (Ok r, st') ->
  uq = true \/ up_employee_id input <> Some EmptyString ->
  NoDup (map Inspector.employee_id (inspectors st)) ->
  forall w x, In w (inspectors st) -> In x (inspectors st) ->
    Inspector.id w = up_id input -> Inspector.id x <> up_id input ->
    Inspector.employee_id
      (set_inspector
         {| pu_name := up_name input; pu_employee_id := up_employee_id input;
            pu_updated_at := now |} w)
    <> Inspector.employee_id x.
Proof.
  intros Hrun Hguard Hnd w x Hw Hx Hwid Hxid.
  destruct (up_employee_id input) as [e|] eqn:He.
  2: { cbn. intros Heq. apply Hxid. rewrite <- Hwid. f_equal.
       symmetry. now apply (NoDup_map_inj Inspector.employee_id (inspectors st)). }
  cbn. revert Hrun. unfold updateInspector. unfold_storage. rewrite He.
  destruct (is_empty (filter (fun p => Inspector.id p =? up_id input)%Z
                        (inspectors st))); [discriminate|].
  destruct e as [|c e]; cbn [truthy_opt truthy].
  - destruct Hguard as [->|Hguard]; [|contradiction].
    cbn [andb is_empty negb].
    destruct (existsb (fun r => employee_id_taken r _) _) eqn:Hemp; [discriminate|].
    intros _.
    assert (Hin : In (set_inspector
                        {| pu_name := up_name input;
                           pu_employee_id := Some EmptyString;
                           pu_updated_at := now |} w)
                    (map (set_inspector
                            {| pu_name := up_name input;
                               pu_employee_id := Some EmptyString;
                               pu_updated_at := now |})
                       (filter (fun p => Inspector.id p =? up_id input)%Z
                          (inspectors st)))).
    { apply in_map. apply filter_In. split; [assumption|now apply Z.eqb_eq]. }
    pose proof (existsb_false_inv _ _ Hemp _ Hin) as H1.
    unfold employee_id_taken in H1.
    assert (Hkept : In x (filter (fun p => negb (Inspector.id p =? up_id input)%Z)
                            (inspectors st))).
    { apply filter_In. split; [assumption|]. now apply negb_true_iff, Z.eqb_neq. }
    pose proof (existsb_false_inv _ _ H1 _ Hkept) as H2.
    apply String.eqb_neq in H2. cbn in H2. congruence.
  - destruct (filter (fun p => strict_eq (Inspector.employee_id p) (Some (String c e))
                               && negb (Inspector.id p =? up_id input)%Z)
                (inspectors st)) as [|dup rest] eqn:Hsel; [|discriminate].
    intros _ Heq.
    pose proof (filter_nil_none _ _ Hsel x Hx) as Hf. cbn in Hf.
    apply Z.eqb_neq in Hxid. rewrite Hxid in Hf. cbn in Hf.
    rewrite andb_true_r in Hf. apply String.eqb_neq in Hf. congruence.
Qed.

Lemma sample_store_keys_unique : keys_unique sample_store.
Proof.
  unfold keys_unique. cbn. repeat apply conj;
    repeat constructor; cbn; intuition discriminate.
Qed.

(** X12: the handlers keep VIN, license plate and employee id unique.
    [createVehicle], [createInspector] and the deletions do so by
    themselves; [updateInspector] does so when inspector ids are unique and
    either the store enforces the constraint or the patch does not give the
    empty employee id; [updateVehicle] does so when vehicle ids are unique
    and the store enforces the constraints. The other handlers do not touch
    these columns. *)
Theorem handlers_keep_keys_unique :
  (forall uq input now st,
      keys_unique st -> keys_unique (snd (createVehicle uq input now st)))
  /\ (forall input now st,
        NoDup (map Vehicle.id (vehicles st)) -> keys_unique st ->
        keys_unique (snd (updateVehicle true input now st)))
  /\ (forall id st, keys_unique st -> keys_unique (snd (deleteVehicle id st)))
  /\ (forall uq input now st,
        keys_unique st -> keys_unique (snd (createInspector uq input now st)))
  /\ (forall uq input now st,
        NoDup (map Inspector.id (inspectors st)) ->
        uq = true \/ up_employee_id input <> Some EmptyString ->
        keys_unique st -> keys_unique (snd (updateInspector uq input now st)))
  /\ (forall id st, keys_unique st -> keys_unique (snd (deleteInspector id st)))
  /\ (forall input now st,
        keys_unique st -> keys_unique (snd (createInspection input now st)))
  /\ (forall input now st,
        keys_unique st -> keys_unique (snd (updateInspection input now st)))
  /\ (forall input now st,
        keys_unique st -> keys_unique (snd (createInspectionItems input now st)))
  /\ (forall input now st,
        keys_unique st -> keys_unique (snd (updateInspectionItem input now st))).
Proof.
  split; [exact createVehicle_keeps_keys|].
  split; [exact updateVehicle_enforced_keeps_keys|].
  split.
  { intros id st (Hvin & Hplate & Hemp). unfold deleteVehicle. unfold_storage.
    destruct (firstn 1 _); cbn [is_empty fst snd]; unfold keys_unique;
      [auto|]. cbn. repeat apply conj; [| |assumption]; now apply NoDup_map_filter. }
  split; [exact createInspector_keeps_keys|].
  split.
  { intros uq input now st Hids Hguard (Hvin & Hplate & Hemp).
    destruct (updateInspector uq input now st) as [[r|e] st'] eqn:Hrun; cbn [snd].
    - pose proof (updateInspector_clash_free _ _ _ _ _ _ Hrun Hguard Hemp) as Hclash.
      apply updateInspector_success in Hrun.
      destruct Hrun as (old & rest & _ & _ & ->).
      unfold keys_unique. cbn. repeat apply conj; [assumption|assumption|].
      apply (NoDup_update_one Inspector.id Inspector.employee_id); assumption.
    - pose proof (updateInspector_preserves uq input now st e) as Hsame.
      rewrite Hrun in Hsame. cbn in Hsame. rewrite Hsame by reflexivity.
      unfold keys_unique. auto. }
  split.
  { intros id st (Hvin & Hplate & Hemp). unfold deleteInspector. unfold_storage.
    destruct (filter _ (inspectors st)); cbn [is_empty fst snd]; unfold keys_unique;
      [auto|].
    destruct (filter _ (inspections st)); cbn [is_empty negb fst snd]; [|auto].
    cbn. repeat apply conj; [assumption|assumption|]. now apply NoDup_map_filter. }
  split.
  { intros input now st Hkeys. unfold createInspection. unfold_storage.
    repeat (case_step; cbn [fst snd]); exact Hkeys. }
  split.
  { intros input now st Hkeys.
    destruct (updateInspection input now st) as [[r|e] st'] eqn:Hrun; cbn [snd].
    - apply updateInspection_success in Hrun.
      destruct Hrun as (old & rest & _ & _ & ->). exact Hkeys.
    - pose proof (updateInspection_preserves input now st e) as Hsame.
      rewrite Hrun in Hsame. cbn in Hsame. now rewrite Hsame. }
  split.
  { intros input now st Hkeys. unfold createInspectionItems. unfold_storage.
    repeat (case_step; cbn [fst snd]); exact Hkeys. }
  intros input now st Hkeys.
  destruct (updateInspectionItem input now st) as [[r|e] st'] eqn:Hrun; cbn [snd].
  - apply updateInspectionItem_success in Hrun.
    destruct Hrun as (old & rest & _ & _ & ->). exact Hkeys.
  - pose proof (updateInspectionItem_preserves input now st e) as Hsame.
    rewrite Hrun in Hsame. cbn in Hsame. now rewrite Hsame.
Qed.

Lemma handlers_keep_keys_unique_witness :
  keys_unique (snd (createVehicle false two_row_collision 9500 sample_store))
  /\ keys_unique
       (snd (updateVehicle true crossed_patch 9500 sample_store)).
Proof.
  destruct handlers_keep_keys_unique as (Hcreate & Hupdate & _).
  split.
  - apply Hcreate. exact sample_store_keys_unique.
  - apply Hupdate; [|exact sample_store_keys_unique].
    cbn. repeat constructor; cbn; intuition discriminate.
Defined.

Lemma handlers_keep_store_invariant_witness :
  store_invariant
    (snd (createInspection
            {| ci_vehicle_id := 1; ci_inspector_id := 1; ci_inspection_date := 9000;
               ci_completed := None; ci_notes := Undefined |}
            9500
            (snd (createInspector true
                    {| cp_name := "John Smith"; cp_employee_id := "EMP001" |} 9200
                    (snd (createVehicle true two_row_collision 9100 empty_store)))))).
Proof.
  destruct handlers_keep_store_invariant
    as (Hempty & Hvehicle & _ & _ & Hinspector & _ & _ & Hinspection & _).
  apply Hinspection, Hinspector, Hvehicle, Hempty.
Defined.

(** * How the handlers compose *)

Lemma createVehicle_success uq input now st r st' :
  createVehicle uq input now st = (Ok r, st') ->
  let row :=
    Vehicle.mk (vehicles_seq st) (cv_make input) (cv_model input) (cv_year input)
      (cv_vin input) (cv_license_plate input) now now in
  r = Some row
  /\ st' = with_vehicles st (vehicles st ++ [row]) (vehicles_seq st + 1).
Proof.
  destruct (filter (fun v => (Vehicle.vin v =? cv_vin input)
                             || (Vehicle.license_plate v =? cv_license_plate input))
              (vehicles st)) as [|first rest] eqn:Hsel.
  - rewrite (createVehicle_no_match uq input now st Hsel). cbv zeta.
    intros H. inversion H; subst. split; reflexivity.
  - rewrite (createVehicle_first_match uq input now st first rest Hsel). discriminate.
Qed.

Lemma createInspector_success uq input now st r st' :
  createInspector uq input now st = (Ok r, st') ->
  let row :=
    Inspector.mk (inspectors_seq st) (cp_name input) (cp_employee_id input) now now in
  r = Some row
  /\ st' = with_inspectors st (inspectors st ++ [row]) (inspectors_seq st + 1).
Proof.
  unfold createInspector. unfold_storage.
  destruct (filter _ (inspectors st)) as [|existing rest] eqn:Hsel; [|discriminate].
  apply existsb_filter_nil in Hsel.
  unfold employee_id_taken. cbn [Inspector.employee_id is_empty negb].
  rewrite Hsel, andb_false_r. cbn. intros H. inversion H; subst. split; reflexivity.
Qed.

Lemma createInspection_success input now st r st' :
  createInspection input now st = (Ok r, st') ->
  let row :=
    Inspection.mk (inspections_seq st) (ci_vehicle_id input) (ci_inspector_id input)
      (ci_inspection_date input) false (or_null (ci_notes input)) now now in
  r = Some row
  /\ st' = with_inspections st (inspections st ++ [row]) (inspections_seq st + 1)
  /\ (exists v, In v (vehicles st) /\ Vehicle.id v = ci_vehicle_id input)
  /\ (exists p, In p (inspectors st) /\ Inspector.id p = ci_inspector_id input).
Proof.
  unfold createInspection. unfold_storage.
  destruct (is_empty (filter _ (vehicles st))) eqn:Hveh; [discriminate|].
  destruct (is_empty (filter _ (inspectors st))) eqn:Hinsp; [discriminate|].
  cbn. intros H. inversion H; subst.
  apply filter_some_inv in Hveh, Hinsp.
  destruct Hveh as [v [Hv Hvid]]. destruct Hinsp as [p [Hp Hpid]].
  apply Z.eqb_eq in Hvid, Hpid. repeat apply conj; eauto.
Qed.

Lemma filter_snoc_fresh {A} (key : A -> Z) (l : list A) (row : A) :
  (forall x, In x l -> key x <> key row) ->
  filter (fun x => key x =? key row)%Z (l ++ [row]) = [row].
Proof.
  intros Hfresh. rewrite filter_app. simpl. rewrite Z.eqb_refl.
  rewrite (is_empty_filter_none (fun x => (key x =? key row)%Z) l); [reflexivity|].
  intros x Hx. apply Z.eqb_neq. now apply Hfresh.
Qed.

(** X13: a created row can be read back by its id. When no vehicle holds
    the next identifier of the sequence, the vehicle that [createVehicle]
    returns is the one [getVehicleById] returns for its id in the store the
    creation leaves; likewise for [createInspector] and [getInspectorById]. *)
Theorem created_rows_are_retrievable :
  (forall uq input now st row st',
      (forall v, In v (vehicles st) -> Vehicle.id v <> vehicles_seq st) ->
      createVehicle uq input now st = (Ok (Some row), st') ->
      getVehicleById (Vehicle.id row) st' = (Ok (Some row), st'))
  /\ (forall uq input now st row st',
        (forall p, In p (inspectors st) -> Inspector.id p <> inspectors_seq st) ->
        createInspector uq input now st = (Ok (Some row), st') ->
        getInspectorById (Inspector.id row) st' = (Ok (Some row), st')).
Proof.
  split.
  - intros uq input now st row st' Hfresh Hrun.
    apply createVehicle_success in Hrun. destruct Hrun as [Hrow ->].
    inversion Hrow; subst. unfold getVehicleById. unfold_storage.
    cbn [vehicles with_vehicles].
    rewrite (filter_snoc_fresh Vehicle.id); [reflexivity|exact Hfresh].
  - intros uq input now st row st' Hfresh Hrun.
    apply createInspector_success in Hrun. destruct Hrun as [Hrow ->].
    inversion Hrow; subst. unfold getInspectorById. unfold_storage.
    cbn [inspectors with_inspectors].
    rewrite (filter_snoc_fresh Inspector.id); [reflexivity|exact Hfresh].
Qed.

Lemma created_rows_are_retrievable_witness :
  exists row st',
    createVehicle true
      {| cv_make := "Nissan"; cv_model := "Leaf"; cv_year := 2023;
         cv_vin := "1N4AZ0CP0DC400001"; cv_license_plate := "NEW999" |}
      9500 sample_store
    = (Ok (Some row), st')
    /\ Vehicle.id row = 4%Z
    /\ getVehicleById (Vehicle.id row) st' = (Ok (Some row), st').
Proof.
  destruct created_rows_are_retrievable as [Hvehicle _].
  eexists. eexists. split; [cbv; reflexivity|]. split; [reflexivity|].
  apply (Hvehicle true
           {| cv_make := "Nissan"; cv_model := "Leaf"; cv_year := 2023;
              cv_vin := "1N4AZ0CP0DC400001"; cv_license_plate := "NEW999" |}
           9500%Z sample_store).
  - cbn. intros v [<-|[<-|[<-|[]]]]; cbn; lia.
  - cbv. reflexivity.
Defined.

(** X14: after a successful [createVehicle], a further [createVehicle]
    with the same VIN or the same license plate throws a conflict error and
    writes nothing. *)
Theorem createVehicle_twice_rejected
    (uq : bool) (input : CreateVehicleInput) (now : Date) (st : State)
    (row : option Vehicle.t) (st' : State)
    (again : CreateVehicleInput) (later : Date) :
  createVehicle uq input now st = (Ok row, st') ->
  cv_vin again = cv_vin input \/ cv_license_plate again = cv_license_plate input ->
  exists message,
    createVehicle uq again later st' = (Throw (Conflict message), st').
Proof.
  intros Hrun Hsame. apply createVehicle_success in Hrun. destruct Hrun as [_ ->].
  set (new := Vehicle.mk (vehicles_seq st) (cv_make input) (cv_model input)
                (cv_year input) (cv_vin input) (cv_license_plate input) now now).
  set (st' := with_vehicles st (vehicles st ++ [new]) (vehicles_seq st + 1)).
  destruct (filter (fun v => (Vehicle.vin v =? cv_vin again)
                             || (Vehicle.license_plate v =? cv_license_plate again))
              (vehicles st')) as [|first rest] eqn:Hsel.
  - exfalso.
    assert (Hin : In new (vehicles st')) by (cbn; apply in_or_app; right; now left).
    pose proof (filter_nil_none _ _ Hsel new Hin) as Hf. cbn in Hf.
    apply orb_false_iff in Hf. destruct Hf as [H1 H2].
    apply String.eqb_neq in H1, H2. destruct Hsame; congruence.
  - eexists. apply (createVehicle_first_match uq again later st' first rest Hsel).
Qed.

Lemma createVehicle_twice_rejected_witness :
  exists message st',
    createVehicle false
      {| cv_make := "Kia"; cv_model := "Rio"; cv_year := 2019;
         cv_vin := "1N4AZ0CP0DC400001"; cv_license_plate := "OTHER1" |}
      9600 st'
    = (Throw (Conflict message), st').
Proof.
  edestruct createVehicle_twice_rejected
    with (uq := false) (now := 9500%Z) (st := sample_store) (later := 9600%Z)
         (input := {| cv_make := "Nissan"; cv_model := "Leaf"; cv_year := 2023;
                      cv_vin := "1N4AZ0CP0DC400001"; cv_license_plate := "NEW999" |})
         (again := {| cv_make := "Kia"; cv_model := "Rio"; cv_year := 2019;
                      cv_vin := "1N4AZ0CP0DC400001"; cv_license_plate := "OTHER1" |})
    as [message Hrun].
  - cbv. reflexivity.
  - left. reflexivity.
  - eexists. eexists. exact Hrun.
Defined.

(** X15: once [createInspection] has succeeded, [deleteInspector] on the
    inspector of the new inspection throws the referential-integrity error
    and deletes nothing. *)
Theorem inspector_of_new_inspection_is_kept
    (input : CreateInspectionInput) (now : Date) (st : State)
    (row : option Inspection.t) (st' : State) :
  createInspection input now st = (Ok row, st') ->
  exists message,
    deleteInspector (ci_inspector_id input) st'
    = (Throw (ReferentialIntegrity message), st').
Proof.
  intros Hrun. apply createInspection_success in Hrun.
  destruct Hrun as (_ & -> & _ & Hinspector).
  unfold deleteInspector. unfold_storage. cbn [inspectors inspections with_inspections].
  rewrite (some_inspector_with_id _ _ Hinspector).
  cbn [inspections with_inspections].
  rewrite filter_app. cbn [filter Inspection.inspector_id]. rewrite Z.eqb_refl.
  destruct (filter _ (inspections st) ++ _)%list eqn:Hrefs.
  - apply app_eq_nil in Hrefs. destruct Hrefs as [_ Hrefs]. discriminate.
  - cbn. eauto.
Qed.

Lemma inspector_of_new_inspection_is_kept_witness :
  exists message st',
    deleteInspector 1 st' = (Throw (ReferentialIntegrity message), st').
Proof.
  edestruct inspector_of_new_inspection_is_kept
    with (now := 9500%Z) (st := sample_store)
         (input := {| ci_vehicle_id := 3; ci_inspector_id := 1;
                      ci_inspection_date := 9000; ci_completed := None;
                      ci_notes := Undefined |})
    as [message Hrun].
  - cbv. reflexivity.
  - eexists. eexists. exact Hrun.
Defined.

Lemma filter_others_snoc {A} (key : A -> Z) (l : list A) (row : A) :
  (forall x, In x l -> key x <> key row) ->
  filter (fun x => negb (key x =? key row)%Z) (l ++ [row]) = l.
Proof.
  intros Hfresh. rewrite filter_app. simpl. rewrite Z.eqb_refl. simpl.
  rewrite app_nil_r. rewrite <- (filter_ext_in (fun _ => true)).
  - apply filter_all.
  - intros x Hx. symmetry. apply negb_true_iff, Z.eqb_neq. now apply Hfresh.
Qed.

(** X16: on a store that satisfies the invariant, an inspector just
    created can be deleted again: [deleteInspector] on the id that
    [createInspector] returned acknowledges, and every table is then as it
    was before the creation. *)
Theorem created_inspector_can_be_deleted
    (uq : bool) (input : CreateInspectorInput) (now : Date) (st : State)
    (row : Inspector.t) (st' : State) :
  store_invariant st ->
  createInspector uq input now st = (Ok (Some row), st') ->
  exists st'',
    deleteInspector (Inspector.id row) st' = (Ok true, st'')
    /\ inspectors st'' = inspectors st
    /\ vehicles st'' = vehicles st
    /\ inspections st'' = inspections st
    /\ inspection_items st'' = inspection_items st.
Proof.
  intros [[_ [_ Href]] [_ Hseq]] Hrun.
  apply createInspector_success in Hrun. destruct Hrun as [Hrow ->].
  inversion Hrow; subst. clear Hrow.
  set (new := Inspector.mk (inspectors_seq st) (cp_name input) (cp_employee_id input)
                now now).
  assert (Hfresh : forall p, In p (inspectors st) -> Inspector.id p <> Inspector.id new).
  { intros p Hp. specialize (Hseq p Hp). cbn. lia. }
  unfold deleteInspector. unfold_storage.
  cbn [inspectors inspections with_inspectors].
  rewrite (filter_snoc_fresh Inspector.id _ new Hfresh). cbn [is_empty].
  rewrite (is_empty_filter_none
             (fun i => (Inspection.inspector_id i =? Inspector.id new)%Z)).
  2: { intros i Hi. destruct (Href i Hi) as [_ [p [Hp Hpid]]].
       apply Z.eqb_neq. rewrite <- Hpid. now apply Hfresh. }
  cbn [is_empty negb]. eexists. split; [reflexivity|]. cbn.
  repeat apply conj; try reflexivity.
  apply (filter_others_snoc Inspector.id _ new Hfresh).
Qed.

Lemma created_inspector_can_be_deleted_witness :
  exists st' st'',
    deleteInspector 1 st' = (Ok true, st'')
    /\ inspectors st'' = [].
Proof.
  edestruct created_inspector_can_be_deleted
    with (uq := true) (now := 9500%Z) (st := empty_store)
         (input := {| cp_name := "John Smith"; cp_employee_id := "EMP001" |})
    as (st'' & Hrun & Hinspectors & _).
  - exact empty_store_invariant.
  - cbv. reflexivity.
  - eexists. exists st''. split; [exact Hrun|exact Hinspectors].
Defined.

(** X17: a patch sent to [updateInspection] right after [createInspection],
    under the id of the created inspection, reaches that inspection when
    no older inspection holds the id: [completed] is [false] unless the
    patch gives it, [notes] are those stored at creation unless the patch
    gives them, and vehicle, inspector, date and [created_at] are those of
    the creation. *)
Theorem new_inspection_can_be_patched
    (input : CreateInspectionInput) (now : Date) (st : State)
    (row : Inspection.t) (st' : State)
    (patch : UpdateInspectionInput) (later : Date) :
  (forall i, In i (inspections st) -> Inspection.id i <> inspections_seq st) ->
  createInspection input now st = (Ok (Some row), st') ->
  ui_id patch = Inspection.id row ->
  exists row' st'',
    updateInspection patch later st' = (Ok (Some row'), st'')
    /\ Inspection.id row' = Inspection.id row
    /\ Inspection.vehicle_id row' = ci_vehicle_id input
    /\ Inspection.inspector_id row' = ci_inspector_id input
    /\ Inspection.inspection_date row' = ci_inspection_date input
    /\ Inspection.completed row' = assign (ui_completed patch) false
    /\ Inspection.notes row' = assign_nullable (ui_notes patch) (Inspection.notes row)
    /\ Inspection.created_at row' = now
    /\ Inspection.updated_at row' = later.
Proof.
  intros Hfresh Hrun Hid. apply createInspection_success in Hrun.
  destruct Hrun as (Hrow & -> & _). inversion Hrow; subst. clear Hrow.
  unfold updateInspection. unfold_storage. rewrite Hid.
  cbn [inspections with_inspections].
  rewrite (filter_snoc_fresh Inspection.id); [|exact Hfresh].
  cbn. eexists. eexists. split; [reflexivity|]. cbn.
  repeat apply conj; reflexivity.
Qed.

Lemma new_inspection_can_be_patched_witness :
  exists row' st' st'',
    updateInspection {| ui_id := 3; ui_completed := Some true; ui_notes := Undefined |}
      9900 st'
    = (Ok (Some row'), st'')
    /\ Inspection.completed row' = true
    /\ Inspection.notes row' = None.
Proof.
  edestruct new_inspection_can_be_patched
    with (now := 9500%Z) (st := sample_store) (later := 9900%Z)
         (input := {| ci_vehicle_id := 1; ci_inspector_id := 1;
                      ci_inspection_date := 9000; ci_completed := None;
                      ci_notes := Undefined |})
         (patch := {| ui_id := 3; ui_completed := Some true; ui_notes := Undefined |})
    as (row' & st'' & Hrun & _ & _ & _ & _ & Hdone & Hnotes & _).
  - cbn. intros i [<-|[<-|[]]]; cbn; lia.
  - cbv. reflexivity.
  - reflexivity.
  - exists row'. eexists. exists st''. repeat apply conj.
    + exact Hrun.
    + exact Hdone.
    + exact Hnotes.
Defined.

Lemma number_items_inspection_id (k : Z) (now : Date) (values : list ItemValues) :
  Forall (fun v => iv_inspection_id v = k) values ->
  forall seq,
    Forall (fun t => InspectionItem.inspection_id t = k) (number_items seq now values).
Proof.
  induction 1 as [|v values Hv Hall IH]; intros seq; simpl; constructor; auto.
Qed.

Lemma createInspectionItems_success input now st rows st' :
  createInspectionItems input now st = (Ok rows, st') ->
  (exists i, In i (inspections st) /\ Inspection.id i = cii_inspection_id input)
  /\ vehicles st' = vehicles st /\ inspectors st' = inspectors st
  /\ inspections st' = inspections st
  /\ inspection_items st' = (inspection_items st ++ rows)%list
  /\ Forall (fun t => InspectionItem.inspection_id t = cii_inspection_id input) rows.
Proof.
  unfold createInspectionItems. unfold_storage.
  destruct (is_empty (filter _ (inspections st))) eqn:Hsel; [discriminate|].
  apply filter_some_inv in Hsel. destruct Hsel as [i [Hi Hid]].
  apply Z.eqb_eq in Hid.
  destruct (cii_items input) as [|item items] eqn:Hitems; cbn [is_empty].
  - intros H. inversion H; subst. rewrite app_nil_r. repeat apply conj; eauto.
  - intros H. apply pair_equal_spec in H. destruct H as [Hr <-].
    injection Hr as <-.
    cbn [vehicles inspectors inspections inspection_items with_inspection_items].
    repeat apply conj; eauto.
    assert (Hall : Forall (fun v => iv_inspection_id v = cii_inspection_id input)
                     (map (fun item =>
                             {| iv_inspection_id := cii_inspection_id input;
                                iv_item_name := ii_item_name item;
                                iv_status := ii_status item;
                                iv_comments := or_null (ii_comments item) |})
                        (item :: items))).
    { apply Forall_forall. intros v Hv. apply in_map_iff in Hv.
      destruct Hv as [x [<- _]]. reflexivity. }
    exact (number_items_inspection_id _ now _ Hall (inspection_items_seq st)).
Qed.

(** X18: items added by [createInspectionItems] show up in
    [getInspectionDetails]: on a store whose references are intact, after a
    successful call the details of that inspection list the items it had
    before, followed by the rows the call returned. *)
Theorem new_items_show_in_details
    (input : CreateInspectionItemsInput) (now : Date) (st : State)
    (rows : list InspectionItem.t) (st' : State) :
  referential_integrity st ->
  createInspectionItems input now st = (Ok rows, st') ->
  exists before after,
    getInspectionDetails (cii_inspection_id input) st = (Ok (Some before), st)
    /\ getInspectionDetails (cii_inspection_id input) st' = (Ok (Some after), st')
    /\ InspectionWithDetails.items after
       = (InspectionWithDetails.items before ++ rows)%list.
Proof.
  intros Hri Hrun. apply createInspectionItems_success in Hrun.
  destruct Hrun as (Hexists & Hv & Hp & Hi & Hitems & Hrows).
  assert (Hri' : referential_integrity st').
  { unfold referential_integrity. rewrite Hv, Hp, Hi. exact Hri. }
  destruct (getInspectionDetails_found (cii_inspection_id input) st Hri Hexists)
    as (before & Hbefore & Hrest).
  rewrite <- Hi in Hexists.
  destruct (getInspectionDetails_found (cii_inspection_id input) st' Hri' Hexists)
    as (after & Hafter & Hrest').
  exists before, after. repeat apply conj; try assumption.
  destruct Hrest as (_ & _ & _ & _ & _ & _ & ->).
  destruct Hrest' as (_ & _ & _ & _ & _ & _ & ->).
  rewrite Hitems, filter_app. f_equal.
  rewrite <- (filter_ext_in (fun _ => true)); [apply filter_all|].
  intros t Ht. rewrite Forall_forall in Hrows. symmetry.
  apply Z.eqb_eq. now apply Hrows.
Qed.

Lemma new_items_show_in_details_witness :
  exists after st',
    getInspectionDetails 1 st' = (Ok (Some after), st')
    /\ List.length (InspectionWithDetails.items after) = 2%nat.
Proof.
  edestruct new_items_show_in_details
    with (now := 9500%Z) (st := sample_store)
         (input := {| cii_inspection_id := 1;
                      cii_items := [ {| ii_item_name := "Lights"; ii_status := fail;
                                        ii_comments := Value "Left bulb out" |} ] |})
    as (before & after & Hbefore & Hafter & Hitems).
  - exact sample_store_integrity.
  - cbv. reflexivity.
  - exists after. eexists. split; [exact Hafter|].
    rewrite Hitems, length_app.
    assert (Hb : InspectionWithDetails.items before = [sample_item1]).
    { cbv in Hbefore. inversion Hbefore. reflexivity. }
    rewrite Hb. reflexivity.
Defined.

Lemma deleteVehicle_success id st r st' :
  deleteVehicle id st = (Ok r, st') ->
  (exists v, In v (vehicles st) /\ Vehicle.id v = id)
  /\ st' = snd (delete_vehicles (fun v => Vehicle.id v =? id)%Z st).
Proof.
  unfold deleteVehicle. unfold_storage.
  destruct (is_empty (firstn 1 (filter (fun v => Vehicle.id v =? id)%Z (vehicles st))))
    eqn:Hsel; [discriminate|].
  intros H. apply pair_equal_spec in H. destruct H as [_ <-]. split; [|reflexivity].
  destruct (filter (fun v => Vehicle.id v =? id)%Z (vehicles st))
    as [|first rest] eqn:Hfil; [discriminate|].
  apply first_match_holds in Hfil. destruct Hfil as [Hid Hin].
  apply Z.eqb_eq in Hid. eauto.
Qed.

(** X19: after a successful [deleteVehicle] the vehicle is gone for the
    reading handlers: [getVehicleById] returns [null] for its id,
    [getVehicleInspections] returns the empty list, and no inspection of the
    store refers to it. *)
Theorem deleted_vehicle_is_gone (id : Z) (st : State) (r : bool) (st' : State) :
  deleteVehicle id st = (Ok r, st') ->
  getVehicleById id st' = (Ok None, st')
  /\ getVehicleInspections id st' = (Ok [], st')
  /\ (forall i, In i (inspections st') -> Inspection.vehicle_id i <> id).
Proof.
  intros Hrun. apply deleteVehicle_success in Hrun. destruct Hrun as [Hexists ->].
  set (st' := snd (delete_vehicles (fun v => Vehicle.id v =? id)%Z st)).
  assert (Hnone : forall v, In v (vehicles st') -> Vehicle.id v <> id).
  { intros v Hv. cbn in Hv. apply filter_In in Hv. destruct Hv as [_ Hv].
    now apply negb_true_iff, Z.eqb_neq in Hv. }
  repeat apply conj.
  - unfold getVehicleById. unfold_storage.
    now rewrite (no_vehicle_with_id _ _ Hnone).
  - rewrite getVehicleInspections_eq. cbv zeta.
    rewrite (is_empty_filter_none
               (fun r => (Inspection.vehicle_id (fst (fst r)) =? id)%Z)
               (join_inspections st')); [reflexivity|].
    intros [[i v] p] Hrow. apply join_row_sound in Hrow.
    destruct Hrow as (_ & Hv & Hvid & _). apply Z.eqb_neq. cbn.
    rewrite <- Hvid. now apply Hnone.
  - intros i Hi. cbn in Hi. apply filter_In in Hi. destruct Hi as [_ Hkept].
    apply negb_true_iff in Hkept. intros Hveh.
    rewrite (proj2 (gone_ids id (Inspection.vehicle_id i) _ Hexists) Hveh) in Hkept.
    discriminate.
Qed.

Lemma deleted_vehicle_is_gone_witness :
  exists st',
    deleteVehicle 1 sample_store = (Ok true, st')
    /\ getVehicleById 1 st' = (Ok None, st')
    /\ getVehicleInspections 1 st' = (Ok [], st').
Proof.
  eexists. split; [cbv; reflexivity|].
  edestruct deleted_vehicle_is_gone with (id := 1%Z) (st := sample_store)
    as (Hget & Hlist & _).
  - cbv. reflexivity.
  - split; [exact Hget|exact Hlist].
Defined.

(** * Client-side computations *)

Lemma filter_split_perm {A} (f : A -> bool) (l : list A) :
  Permutation (filter f l ++ filter (fun x => negb (f x)) l) l.
Proof.
  induction l as [|x l IH]; simpl.
  - constructor.
  - destruct (f x); simpl.
    + now constructor.
    + apply Permutation_sym, Permutation_cons_app, Permutation_sym, IH.
Qed.

(** X20: the status filter of the inspection list. With ["all"], or with
    any string other than ["completed"] and ["pending"], every inspection
    is shown; ["completed"] shows exactly the completed ones and
    ["pending"] exactly the others, so that each inspection is in exactly
    one of these two views. *)
Theorem filteredInspections_views (inspections : list Inspection.t) :
  (forall filterStatus,
      filterStatus <> "completed" -> filterStatus <> "pending" ->
      filteredInspections filterStatus inspections = inspections)
  /\ filteredInspections "completed" inspections
     = filter Inspection.completed inspections
  /\ filteredInspections "pending" inspections
     = filter (fun i => negb (Inspection.completed i)) inspections
  /\ Permutation
       (filteredInspections "completed" inspections
        ++ filteredInspections "pending" inspections)
       inspections.
Proof.
  assert (Hdone : filteredInspections "completed" inspections
                  = filter Inspection.completed inspections) by reflexivity.
  assert (Hpending : filteredInspections "pending" inspections
                     = filter (fun i => negb (Inspection.completed i)) inspections)
    by reflexivity.
  repeat apply conj; try assumption.
  - intros filterStatus H1 H2. unfold filteredInspections.
    apply String.eqb_neq in H1, H2. rewrite H1, H2.
    destruct (filterStatus =? "all"); apply filter_all.
  - rewrite Hdone, Hpending. apply filter_split_perm.
Qed.

Lemma filteredInspections_views_witness :
  filteredInspections "all" [sample_inspection1; sample_inspection2]
  = [sample_inspection1; sample_inspection2]
  /\ filteredInspections "archived" [sample_inspection1; sample_inspection2]
     = [sample_inspection1; sample_inspection2].
Proof.
  destruct (filteredInspections_views [sample_inspection1; sample_inspection2])
    as [Hall _].
  split; apply Hall; discriminate.
Defined.

Lemma set_has_true (names : list string) (item : string) :
  set_has names item = true <-> In item names.
Proof.
  unfold set_has. rewrite existsb_exists. split.
  - intros [n [Hn Heq]]. apply String.eqb_eq in Heq. now subst.
  - intros Hin. exists item. split; [assumption|apply String.eqb_refl].
Qed.

(** X21: [addNewItemRow] never proposes a name that is already on the
    inspection or in the dialog. While no inspection is loaded it changes
    nothing; otherwise it either appends one row, not applicable and without
    comments, named after a catalog entry that none of the existing items
    and none of the rows has, or, when every catalog entry is taken, changes
    nothing. *)
Theorem addNewItemRow_proposes_unused_name
    (inspection : InspectionWithDetails.t) (newItems : list NewItem) :
  let taken :=
    (map InspectionItem.item_name (InspectionWithDetails.items inspection)
     ++ map ni_item_name newItems)%list in
  addNewItemRow None newItems = newItems
  /\ ((addNewItemRow (Some inspection) newItems = newItems
       /\ forall name, In name INSPECTION_ITEMS -> In name taken)
      \/ (exists name,
            addNewItemRow (Some inspection) newItems
            = (newItems ++ [ {| ni_item_name := name; ni_status := not_applicable;
                                ni_comments := None |} ])%list
            /\ In name INSPECTION_ITEMS
            /\ ~ In name taken)).
Proof.
  intros taken. split; [reflexivity|]. unfold addNewItemRow. fold taken.
  destruct (filter (fun item => negb (set_has taken item)) INSPECTION_ITEMS)
    as [|first rest] eqn:Hsel.
  - left. split; [reflexivity|]. intros name Hname.
    pose proof (filter_nil_none _ _ Hsel name Hname) as Hf.
    apply negb_false_iff in Hf. now apply set_has_true.
  - right. exists first. split; [reflexivity|].
    apply first_match_holds in Hsel. destruct Hsel as [Hfree Hin].
    split; [exact Hin|]. intros Htaken. apply set_has_true in Htaken.
    rewrite Htaken in Hfree. discriminate.
Qed.

Lemma filter_index_drops {A} (index : nat) (l : list A) :
  forall offset,
    filter_index (fun i => negb (Nat.eqb i (offset + index))) offset l
    = (firstn index l ++ skipn (S index) l)%list.
Proof.
  revert l. induction index as [|index IH]; intros l offset.
  - rewrite Nat.add_0_r. destruct l as [|x l]; [reflexivity|].
    cbn [filter_index firstn skipn]. rewrite Nat.eqb_refl. cbn [negb Datatypes.app].
    clear x. assert (Hgen : forall k, (offset < k)%nat ->
                       filter_index (fun i => negb (Nat.eqb i offset)) k l = l).
    { induction l as [|y l IHl]; intros k Hk; [reflexivity|].
      cbn [filter_index].
      replace (Nat.eqb k offset) with false
        by (symmetry; apply Nat.eqb_neq; lia).
      cbn [negb]. f_equal. apply IHl. lia. }
    apply Hgen. lia.
  - destruct l as [|x l]; [reflexivity|].
    cbn [filter_index firstn skipn Datatypes.app].
    replace (Nat.eqb offset (offset + S index)) with false
      by (symmetry; apply Nat.eqb_neq; lia).
    cbn [negb]. f_equal.
    replace (offset + S index)%nat with (S offset + index)%nat by lia.
    apply IH.
Qed.

(** X22: [removeNewItemRow] removes the row at the given position and
    keeps the others in order; a position past the end changes nothing. *)
Theorem removeNewItemRow_removes_one (newItems : list NewItem) (index : nat) :
  removeNewItemRow newItems index
  = (firstn index newItems ++ skipn (S index) newItems)%list
  /\ ((index < List.length newItems)%nat ->
      S (List.length (removeNewItemRow newItems index)) = List.length newItems)
  /\ ((List.length newItems <= index)%nat ->
      removeNewItemRow newItems index = newItems).
Proof.
  assert (Heq : removeNewItemRow newItems index
                = (firstn index newItems ++ skipn (S index) newItems)%list)
    by apply (filter_index_drops index newItems 0).
  repeat apply conj.
  - exact Heq.
  - intros Hlt. rewrite Heq, length_app, length_firstn, length_skipn.
    rewrite Nat.min_l by lia. lia.
  - intros Hle. rewrite Heq, firstn_all2, skipn_all2 by lia. apply app_nil_r.
Qed.

Lemma removeNewItemRow_removes_one_witness :
  List.length
    (removeNewItemRow
       [ {| ni_item_name := "Engine"; ni_status := pass; ni_comments := None |};
         {| ni_item_name := "Brakes"; ni_status := fail; ni_comments := None |} ] 1)
  = 1%nat.
Proof.
  destruct (removeNewItemRow_removes_one
              [ {| ni_item_name := "Engine"; ni_status := pass; ni_comments := None |};
                {| ni_item_name := "Brakes"; ni_status := fail; ni_comments := None |} ]
              1) as (_ & Hlen & _).
  specialize (Hlen ltac:(cbn; lia)). cbn [List.length] in Hlen. lia.
Defined.

(** X23: the badge of the details view is computed from the items alone:
    it reads completed exactly when an inspection is loaded and none of its
    items is not applicable (so also when it has no item), whatever the
    [completed] flag of the inspection is. *)
Theorem isCompleted_reads_items_only (d : InspectionWithDetails.t) :
  isCompleted None = false
  /\ (isCompleted (Some d) = true
      <-> forall item, In item (InspectionWithDetails.items d) ->
            InspectionItem.status item <> not_applicable)
  /\ (InspectionWithDetails.items d = [] -> isCompleted (Some d) = true)
  /\ (forall d', InspectionWithDetails.items d' = InspectionWithDetails.items d ->
        isCompleted (Some d') = isCompleted (Some d)).
Proof.
  split; [|split; [|split]].
  - reflexivity.
  - unfold isCompleted. rewrite forallb_forall. split.
    + intros H item Hin Hna. specialize (H item Hin). now rewrite Hna in H.
    + intros H item Hin. specialize (H item Hin).
      destruct (InspectionItem.status item); congruence.
  - intros Hnil. unfold isCompleted. now rewrite Hnil.
  - intros d' Hitems. unfold isCompleted. now rewrite Hitems.
Qed.

Lemma isCompleted_reads_items_only_witness :
  isCompleted
    (Some (with_details (sample_inspection1, sample_vehicle1, sample_inspector1) []))
  = true.
Proof.
  destruct (isCompleted_reads_items_only
              (with_details (sample_inspection1, sample_vehicle1, sample_inspector1) []))
    as (_ & _ & Hempty & _).
  apply Hempty. reflexivity.
Defined.
